(** * Movie recommender (app.py): shallow embedding and verified properties

    The development follows the layout of [app.py]:
    - Python values the code manipulates (catalog rows, similarity rows,
      HTTP replies) become records and lists;
    - [sorted], slicing and [enumerate] are modelled as list functions;
    - code that raises, catches and talks to the network lives in a small
      state-and-exception monad [M] whose state counts the requests issued;
    - the session history is threaded explicitly through [update_history]. *)

From Stdlib Require Import ZArith QArith Lqa Ascii.
From stdpp Require Import base list strings pretty sorting.

Local Open Scope Z_scope.
Local Open Scope string_scope.
Local Open Scope list_scope.
Local Open Scope nat_scope.

(** ** Python built-ins used by the ranking code *)

Section builtins.
Context {A K : Type}.
(** [lt] is Python's [<] on the sort keys, [key] the [key=] argument. *)
Variable lt : K → K → bool.
Variable key : A → K.

(** One step of a stable ascending insertion: [x], which stood before every
    element of [l] in the input, is moved right only past keys strictly
    smaller than its own. *)
Fixpoint insert (x : A) (l : list A) : list A :=
  match l with
  | [] => [x]
  | y :: l' => if lt (key y) (key x) then y :: insert x l' else x :: y :: l'
  end.

(** [list.sort] without [reverse].  CPython sorts with Timsort; what its
    callers observe is a stable ascending sort that only ever asks [lt] of
    two keys, and this insertion sort is one.  For a comparison that behaves
    like the one of numbers every such sort returns the same list
    ([distances_unique] below). *)
Fixpoint sort_asc (l : list A) : list A :=
  match l with
  | [] => []
  | x :: l' => insert x (sort_asc l')
  end.

(** [sorted(l, reverse=b, key=key)].  As in CPython, [reverse=True] reverses
    the list, sorts it ascending and reverses the result, so that equal keys
    keep their input order. *)
Definition sorted (l : list A) (reverse_flag : bool) : list A :=
  if reverse_flag then reverse (sort_asc (reverse l)) else sort_asc l.

(** [l[lo:hi]] for non-negative bounds. *)
Definition slice (lo hi : nat) (l : list A) : list A :=
  take (hi - lo) (drop lo l).

(** [list(enumerate(l))]. *)
Definition enumerate (l : list A) : list (nat * A) :=
  imap (λ i x, (i, x)) l.
End builtins.

(** Truthiness of a value that is [None] or a [str]. *)
Definition truthy (v : option string) : bool :=
  match v with
  | Some s => negb (String.eqb s "")
  | None => false
  end.

(** ** Safe image loader *)

Definition placeholder : string := "https://i.ibb.co/ZVFsg37/no-image-icon.png".

Definition safe_image (url : option string) : string :=
  match url with
  | Some s => if truthy url then s else placeholder
  | None => placeholder
  end.

(** ** Exceptions, the network and the monad of effectful code *)

Inductive exn : Type :=
  | IndexError        (* [.index[0]], [similarity[i]], [.iloc[i]] out of range *)
  | RequestException  (* [session.get] gave up: connection error or retries exhausted *)
  | JSONDecodeError   (* [response.json()] on a body that is not JSON *)
  | KeyError          (* [video['key']] on an object without that member *)
  | TypeError         (* [None > 0], iterating or slicing [None], joining [None] *)
  | AttributeError    (* [None.get(...)] *)
  | DuplicateWidgetID. (* a second [st.button] with a key already in use *)

(** The members of a decoded reply that the code reads. *)
Record video : Type := Video {
  v_type : option string;
  v_site : option string;
  v_key : option string
}.

Record body : Type := Body {
  poster_path : option string;
  results : list video
}.

Record response : Type := Response {
  status_code : Z;
  json : option body          (* [None]: [response.json()] raises *)
}.

Inductive reply : Type :=
  | Raised                     (* [get] raised *)
  | Answered (r : response).

(** What [requests_retry_session().get(url)] yields for the [n]-th request of
    the run; the retry plumbing is part of this oracle. *)
Definition network : Type := nat → string → reply.

(** A computation receives the number of requests issued so far and returns
    a value or the exception it raised together with the new count. *)
Definition M (A : Type) : Type := nat → (exn + A) * nat.

Definition ret {A} (x : A) : M A := λ n, (inr x, n).
Definition raise {A} (e : exn) : M A := λ n, (inl e, n).
Definition bind {A B} (m : M A) (k : A → M B) : M B :=
  λ n, match m n with
       | (inr x, n') => k x n'
       | (inl e, n') => (inl e, n')
       end.
(** [try: m / except: h] with a bare [except]. *)
Definition catch {A} (m : M A) (h : M A) : M A :=
  λ n, match m n with
       | (inr x, n') => (inr x, n')
       | (inl _, n') => h n'
       end.

Notation "x <- m ;; k" := (bind m (λ x, k))
  (at level 100, m at next level, right associativity).

(** The body of a [for] loop run over [l], collecting one result per turn. *)
Fixpoint for_each {A B} (f : A → M B) (l : list A) : M (list B) :=
  match l with
  | [] => ret []
  | x :: l' => y <- f x ;; ys <- for_each f l' ;; ret (y :: ys)
  end.

(** ** Catalog and recommendation records *)

Record movie_row : Type := Movie {
  movie_id : Z;
  title : string
}.

Record recommendation : Type := Recommendation {
  rec_title : string;
  rec_poster : option string;
  rec_trailer : option string
}.

Section app.
Context {score : Type}.
Variable lt : score → score → bool.
Variable TMDB_API_KEY : string.
Variable net : network.
(** [movies] with its default positional index, and [similarity]. *)
Variable movies : list movie_row.
Variable similarity : list (list score).

Definition get (url : string) : M response :=
  λ n, match net n url with
       | Raised => (inl RequestException, S n)
       | Answered r => (inr r, S n)
       end.

Definition get_json (r : response) : M body :=
  match json r with
  | Some data => ret data
  | None => raise JSONDecodeError
  end.

(** The [try] block of [fetch_poster]; [None] means that control fell off
    its end. *)
Definition fetch_poster_try (id : Z) : M (option string) :=
  let url := "https://api.themoviedb.org/3/movie/" +:+ pretty id
             +:+ "?api_key=" +:+ TMDB_API_KEY in
  response <- get url ;;
  if (status_code response =? 200)%Z then
    data <- get_json response ;;
    if truthy (poster_path data) then
      ret (Some ("https://image.tmdb.org/t/p/w500"
                 +:+ default "" (poster_path data)))
    else ret None
  else ret None.

Definition fetch_poster (id : Z) : M (option string) :=
  catch (fetch_poster_try id) (ret None).

(** The loop over the videos of a reply: the first YouTube trailer is
    returned, and an entry of that kind without a key raises. *)
Fixpoint first_trailer (vs : list video) : M (option string) :=
  match vs with
  | [] => ret None
  | v :: vs' =>
      if bool_decide (v_type v = Some "Trailer")
         && bool_decide (v_site v = Some "YouTube")
      then match v_key v with
           | Some k => ret (Some ("https://youtu.be/" +:+ k))
           | None => raise KeyError
           end
      else first_trailer vs'
  end.

Definition fetch_trailer_try (id : Z) : M (option string) :=
  let url := "https://api.themoviedb.org/3/movie/" +:+ pretty id
             +:+ "/videos?api_key=" +:+ TMDB_API_KEY in
  response <- get url ;;
  if (status_code response =? 200)%Z then
    data <- get_json response ;;
    first_trailer (results data)
  else ret None.

Definition fetch_trailer (id : Z) : M (option string) :=
  catch (fetch_trailer_try id) (ret None).

(** [movies[movies["title"] == movie].index[0]] *)
Definition first_index (movie : string) : M nat :=
  match list_find (λ r, title r = movie) movies with
  | Some (i, _) => ret i
  | None => raise IndexError
  end.

(** [similarity[index]] *)
Definition similarity_row (index : nat) : M (list score) :=
  match similarity !! index with
  | Some row => ret row
  | None => raise IndexError
  end.

(** [movies.iloc[i]] *)
Definition iloc (i : nat) : M movie_row :=
  match movies !! i with
  | Some r => ret r
  | None => raise IndexError
  end.

(** [distances] of [recommend]. *)
Definition distances_of (row : list score) : list (nat * score) :=
  sorted lt snd (enumerate row) true.

(** One turn of the loop of [recommend]. *)
Definition recommend_one (i : nat * score) : M recommendation :=
  r <- iloc (fst i) ;;
  let rec_movie_id := movie_id r in
  poster <- fetch_poster rec_movie_id ;;
  r' <- iloc (fst i) ;;
  trailer <- fetch_trailer rec_movie_id ;;
  ret {| rec_title := title r'; rec_poster := poster; rec_trailer := trailer |}.

Definition recommend (movie : string) : M (list recommendation) :=
  index <- first_index movie ;;
  row <- similarity_row index ;;
  let distances := distances_of row in
  for_each recommend_one (slice 1 6 distances).
End app.

(** ** Session history *)

(** [update_history] on the list held in the session state; the new list is
    returned. *)
Definition update_history (history : list Z) (id : Z) : list Z :=
  if bool_decide (history = []) || negb (bool_decide (last history = Some id))
  then
    let history' := history ++ [id] in
    if bool_decide (5 < length history') then drop 1 history' else history'
  else history.

(** The histories that the session can hold: [history] starts empty and only
    [update_history] writes to it. *)
Inductive reachable : list Z → Prop :=
  | reachable_empty : reachable []
  | reachable_record h id : reachable h → reachable (update_history h id).

(** ** The other endpoints *)

(** A reply whose decoded body has the members [B]; [network_of B] is the
    oracle of [network] for an endpoint with such bodies. *)
Record response_of (B : Type) : Type := ResponseOf {
  status_of : Z;
  json_of : option B           (* [None]: [response.json()] raises *)
}.
Arguments ResponseOf {B} _ _.
Arguments status_of {B} _.
Arguments json_of {B} _.

Inductive reply_of (B : Type) : Type :=
  | RaisedOf
  | AnsweredOf (r : response_of B).
Arguments RaisedOf {B}.
Arguments AnsweredOf {B} _.

Definition network_of (B : Type) : Type := nat → string → reply_of B.

Definition get_of {B} (net : network_of B) (url : string) : M (response_of B) :=
  λ n, match net n url with
       | RaisedOf => (inl RequestException, S n)
       | AnsweredOf r => (inr r, S n)
       end.

Definition json_body {B} (r : response_of B) : M B :=
  match json_of r with
  | Some data => ret data
  | None => raise JSONDecodeError
  end.

(** A member of a JSON object as the code meets it: absent, [null], or a
    value of its type. *)
Inductive member (A : Type) : Type :=
  | Absent
  | Null
  | Present (a : A).
Arguments Absent {A}.
Arguments Null {A}.
Arguments Present {A} _.

(** [obj.get(k, dflt)]; the result [None] is Python's [None]. *)
Definition dict_get {A} (m : member A) (dflt : A) : option A :=
  match m with
  | Absent => Some dflt
  | Null => None
  | Present a => Some a
  end.

(** [obj[k]] *)
Definition subscript {A} (m : member A) : M (option A) :=
  match m with
  | Absent => raise KeyError
  | Null => ret None
  | Present a => ret (Some a)
  end.

(** [v.get(...)] on the value [v]. *)
Definition an_object {A} (v : option A) : M A :=
  match v with
  | Some o => ret o
  | None => raise AttributeError
  end.

(** [for x in v] and [v[:5]] on the value [v]. *)
Definition a_list {A} (v : option (list A)) : M (list A) :=
  match v with
  | Some l => ret l
  | None => raise TypeError
  end.

(** [[x[k] for x in l]], on the member [k] of each element of [l]. *)
Definition members (l : list (member string)) : M (list (option string)) :=
  for_each subscript l.

(** [sep.join(l)] *)
Definition join (sep : string) (l : list (option string)) : M string :=
  strs <- for_each (λ v, match v with
                         | Some str => ret str
                         | None => raise TypeError
                         end) l ;;
  ret (String.concat sep strs).

(** *** Thousands separators *)

(** Commas between groups of three, on the digits from the least significant
    one. *)
Fixpoint group3 (ds : list ascii) : list ascii :=
  match ds with
  | a :: b :: c :: rest =>
      match rest with
      | [] => ds
      | _ :: _ => a :: b :: c :: ","%char :: group3 rest
      end
  | _ => ds
  end.

(** [format(n, ",")] for an [int]. *)
Definition thousands (n : Z) : string :=
  let digits := String.list_ascii_of_string (pretty (Z.abs n)) in
  let grouped :=
    String.string_of_list_ascii (reverse (group3 (reverse digits))) in
  if (n <? 0)%Z then "-" +:+ grouped else grouped.

(** [f"${x:,}" if x > 0 else "N/A"] for the integer [x] that
    [data.get(k, 0)] returned; [None] stands for the default 0 of an absent
    member. *)
Definition money (v : option Z) : string :=
  if (0 <? default 0%Z v)%Z then "$" +:+ thousands (default 0%Z v)
  else "N/A".

(** The same on the value of [data.get(k, 0)], where [None > 0] raises. *)
Definition money_of (v : option Z) : M string :=
  match v with
  | Some x => ret (money (Some x))
  | None => raise TypeError
  end.

(** *** Trending films *)

Record trending_result : Type := TrendingResult {
  tr_title : option string;
  tr_poster_path : option string;
  tr_id : option Z
}.

(** The member [results] of the reply, [[]] if absent. *)
Record trending_body : Type := TrendingBody {
  tr_results : list trending_result
}.

Record trending_movie : Type := TrendingMovie {
  tm_title : option string;
  tm_poster : option string;
  tm_movie_id : option Z
}.

(** *** Details of a film *)

Record crew_member : Type := CrewMember {
  cr_job : option string;        (* the value of [crew.get("job")] *)
  cr_name : member string
}.

Record cast_member : Type := CastMember {
  ca_name : option string;
  ca_character : option string;
  ca_profile_path : option string
}.

Record credits_body : Type := CreditsBody {
  c_crew : member (list crew_member);
  c_cast : member (list cast_member)
}.

(** The empty object [{}] that stands in for absent credits. *)
Definition no_credits : credits_body :=
  {| c_crew := Absent; c_cast := Absent |}.

(** The members of the reply that [get_movie_details] reads.  A genre and
    a language are given by their members [name] and [english_name].  [V]
    is the type of the JSON values that are passed on as they are; for
    these [None] is the value of [data.get(k)]. *)
Record details_body (V : Type) : Type := DetailsBody {
  d_credits : member credits_body;
  d_genres : member (list (member string));
  d_budget : member Z;
  d_revenue : member Z;
  d_spoken_languages : member (list (member string));
  d_vote_average : option V;
  d_vote_count : option V;
  d_release_date : option V;
  d_runtime : option V;
  d_tagline : option V;
  d_overview : option V
}.
Arguments d_credits {V} _.
Arguments d_genres {V} _.
Arguments d_budget {V} _.
Arguments d_revenue {V} _.
Arguments d_spoken_languages {V} _.
Arguments d_vote_average {V} _.
Arguments d_vote_count {V} _.
Arguments d_release_date {V} _.
Arguments d_runtime {V} _.
Arguments d_tagline {V} _.
Arguments d_overview {V} _.

Record cast_detail : Type := CastDetail {
  cd_name : option string;
  cd_character : option string;
  cd_profile : option string
}.

Record details (V : Type) : Type := Details {
  rating : option V;
  vote_count : option V;
  release_date : option V;
  runtime : option V;
  tagline : option V;
  overview : option V;
  director : string;
  cast : list cast_detail;
  genres : string;
  budget : string;
  revenue : string;
  available_in : string
}.
Arguments Details {V} _ _ _ _ _ _ _ _ _ _ _ _.
Arguments rating {V} _.
Arguments vote_count {V} _.
Arguments release_date {V} _.
Arguments runtime {V} _.
Arguments tagline {V} _.
Arguments overview {V} _.
Arguments director {V} _.
Arguments cast {V} _.
Arguments genres {V} _.
Arguments budget {V} _.
Arguments revenue {V} _.
Arguments available_in {V} _.

(** The dictionary that [get_random_movie] returns. *)
Record random_pick : Type := RandomPick {
  rp_title : string;
  rp_poster : option string;
  rp_trailer : option string;
  rp_movie_id : Z
}.

(** [st.session_state.mode] when it is set, with the entry of the session
    state that was stored along with it: the title chosen, or the film
    drawn. *)
Inductive mode : Type :=
  | Search (selected_movie : string)
  | Surprise (random_movie : random_pick).

(** What the sidebar has drawn, title and image source of each entry, and
    the title stored for the next run if a button was clicked. *)
Record sidebar_view : Type := SidebarView {
  sv_cells : list (string * string);
  sv_rerun : option string
}.

Section pages.
Context {V : Type}.
Variable TMDB_API_KEY : string.
Variable net : network.
Variable net_trending : network_of trending_body.
Variable net_details : network_of (details_body V).
Variable movies : list movie_row.

Definition trending_entry (movie : trending_result) : trending_movie :=
  {| tm_title := tr_title movie;
     tm_poster :=
       if truthy (tr_poster_path movie)
       then Some ("https://image.tmdb.org/t/p/w500"
                  +:+ default "" (tr_poster_path movie))
       else None;
     tm_movie_id := tr_id movie |}.

(** The [try] block of [get_trending_movies]; [None] means that control
    fell off its end. *)
Definition get_trending_movies_try : M (option (list trending_movie)) :=
  let url := "https://api.themoviedb.org/3/trending/movie/week?api_key="
             +:+ TMDB_API_KEY in
  response <- get_of net_trending url ;;
  if (status_of response =? 200)%Z then
    data <- json_body response ;;
    ret (Some (trending_entry <$> take 5 (tr_results data)))
  else ret None.

Definition get_trending_movies : M (list trending_movie) :=
  r <- catch get_trending_movies_try (ret None) ;;
  ret (default [] r).

(** The trending row of the page: the five columns, and for every trending
    film the column it is drawn in, its image source and its title. *)
Definition trending_section : M (list (nat * string * option string)) :=
  trending_movies <- get_trending_movies ;;
  let cols := seq 0 5 in
  for_each (λ '(idx, movie),
              match cols !! idx with
              | Some col => ret (col, safe_image (tm_poster movie), tm_title movie)
              | None => raise IndexError
              end)
           (enumerate trending_movies).

Definition cast_entry (c : cast_member) : cast_detail :=
  {| cd_name := ca_name c;
     cd_character := ca_character c;
     cd_profile :=
       if truthy (ca_profile_path c)
       then Some ("https://image.tmdb.org/t/p/w500"
                  +:+ default "" (ca_profile_path c))
       else None |}.

Definition get_movie_details_try (id : Z) : M (option (details V)) :=
  let url := "https://api.themoviedb.org/3/movie/" +:+ pretty id
             +:+ "?api_key=" +:+ TMDB_API_KEY
             +:+ "&append_to_response=credits,videos" in
  response <- get_of net_details url ;;
  if (status_of response =? 200)%Z then
    data <- json_body response ;;
    credits <- an_object (dict_get (d_credits data) no_credits) ;;
    crew <- a_list (dict_get (c_crew credits) []) ;;
    directors <-
      members (cr_name <$> filter (λ crew, cr_job crew = Some "Director")
                                  crew) ;;
    credits' <- an_object (dict_get (d_credits data) no_credits) ;;
    cast_list <- a_list (dict_get (c_cast credits') []) ;;
    let cast := take 5 cast_list in
    let cast_details := cast_entry <$> cast in
    genre_list <- a_list (dict_get (d_genres data) []) ;;
    genre_names <- members genre_list ;;
    genres <- join ", " genre_names ;;
    budget <- money_of (dict_get (d_budget data) 0%Z) ;;
    revenue <- money_of (dict_get (d_revenue data) 0%Z) ;;
    language_list <- a_list (dict_get (d_spoken_languages data) []) ;;
    languages <- members language_list ;;
    available_in <- join ", " languages ;;
    director <- join ", " directors ;;
    ret (Some {| rating := d_vote_average data;
                 vote_count := d_vote_count data;
                 release_date := d_release_date data;
                 runtime := d_runtime data;
                 tagline := d_tagline data;
                 overview := d_overview data;
                 director := director;
                 cast := cast_details;
                 genres := genres;
                 budget := budget;
                 revenue := revenue;
                 available_in := available_in |})
  else ret None.

Definition get_movie_details (id : Z) : M (option (details V)) :=
  catch (get_movie_details_try id) (ret None).

(** [get_random_movie] once [movies.sample(1).iloc[0]] has drawn the row
    [random_movie]. *)
Definition get_random_movie (random_movie : movie_row) : M random_pick :=
  poster <- fetch_poster TMDB_API_KEY net (movie_id random_movie) ;;
  trailer <- fetch_trailer TMDB_API_KEY net (movie_id random_movie) ;;
  ret {| rp_title := title random_movie;
         rp_poster := poster;
         rp_trailer := trailer;
         rp_movie_id := movie_id random_movie |}.

(** [movies[mask].iloc[0]] for the mask of the rows that satisfy [P]. *)
Definition first_row (P : movie_row → Prop) `{∀ r, Decision (P r)}
    : M movie_row :=
  match list_find P movies with
  | Some (_, r) => ret r
  | None => raise IndexError
  end.

(** The head of the details section: the film on display, and the history
    after [update_history]. *)
Definition record_view (m : mode) (history : list Z)
    : M (string * Z * list Z) :=
  match m with
  | Search movie_title =>
      movie_row <- first_row (λ r, title r = movie_title) ;;
      let movie_id := movie_id movie_row in
      ret (movie_title, movie_id, update_history history movie_id)
  | Surprise movie_data =>
      let movie_title := rp_title movie_data in
      let movie_id := rp_movie_id movie_data in
      ret (movie_title, movie_id, update_history history movie_id)
  end.

(** [st.button(label, key=key)]: [keys] are the keys that the buttons of
    this run have taken so far, and [pressed] tells which button the user
    clicked to start this run. *)
Definition button (pressed : string → bool) (keys : list string)
    (key : string) : M bool :=
  if bool_decide (key ∈ keys) then raise DuplicateWidgetID
  else ret (pressed key).

(** The loop of the sidebar over the entries [l], most recent first.  An
    entry is drawn, then its button is placed.  A click ends the loop: the
    title is stored in [selected_movie], the mode becomes "search" and
    [st.experimental_rerun()] starts the script again; [sv_rerun] holds that
    title. *)
Fixpoint sidebar_loop (pressed : string → bool) (keys : list string)
    (l : list Z) : M sidebar_view :=
  match l with
  | [] => ret {| sv_cells := []; sv_rerun := None |}
  | hist_id :: l' =>
      movie_row <- first_row (λ r, movie_id r = hist_id) ;;
      let title := title movie_row in
      poster <- fetch_poster TMDB_API_KEY net hist_id ;;
      let cell := (title, safe_image poster) in
      let key := "hist_" +:+ pretty hist_id in
      clicked <- button pressed keys key ;;
      if clicked then ret {| sv_cells := [cell]; sv_rerun := Some title |}
      else
        rest <- sidebar_loop pressed (key :: keys) l' ;;
        ret {| sv_cells := cell :: sv_cells rest; sv_rerun := sv_rerun rest |}
  end.

Definition sidebar (pressed : string → bool) (history : list Z)
    : M sidebar_view :=
  sidebar_loop pressed [] (reverse history).
End pages.

(** ** Vocabulary of the statements *)

(** The comparison [<] of the scores behaves like the one of numbers: it is
    irreflexive and transitive, and so is its complement [>=]. *)
Class StrictWeak {K : Type} (lt : K → K → bool) : Prop := {
  lt_irrefl x : lt x x = false;
  lt_trans x y z : lt x y = true → lt y z = true → lt x z = true;
  ge_trans x y z : lt x y = false → lt y z = false → lt x z = false
}.

(** Ascending by key, input order [R] among equal keys. *)
Definition asc_then {A K} (lt : K → K → bool) (key : A → K) (R : relation A)
    : relation A :=
  λ a b, lt (key a) (key b) = true ∨ (lt (key b) (key a) = false ∧ R a b).

(** Descending by key, input order [R] among equal keys. *)
Definition desc_then {A K} (lt : K → K → bool) (key : A → K) (R : relation A)
    : relation A :=
  λ a b, lt (key b) (key a) = true ∨ (lt (key a) (key b) = false ∧ R a b).

(** Row order of two enumerated candidates. *)
Definition row_order {B} : relation (nat * B) := λ a b, a.1 < b.1.

(** The matrix is square and has one row per catalog row. *)
Definition well_formed {score} (movies : list movie_row)
    (similarity : list (list score)) : Prop :=
  length similarity = length movies ∧
  Forall (λ row, length row = length movies) similarity.

(** The score at column [i] is not exceeded anywhere in [row]. *)
Definition self_maximal {score} (lt : score → score → bool)
    (row : list score) (i : nat) : bool :=
  match row !! i with
  | Some s => forallb (λ s', negb (lt s s')) row
  | None => false
  end.

(** The score at column [i] exceeds every score at an earlier column and is
    not exceeded at a later one. *)
Definition self_ranks_first {score} (lt : score → score → bool)
    (row : list score) (i : nat) : bool :=
  match row !! i with
  | Some s =>
      forallb (λ c, if c.1 <? i then lt c.2 s else negb (lt s c.2))
              (enumerate row)
  | None => false
  end.

(** The rows of the catalog that carry the title [movie]. *)
Definition rows_titled (movie : string) (movies : list movie_row)
    : list movie_row :=
  filter (λ r, title r = movie) movies.

(** Every request fails: [get] raises or the status is not 200. *)
Definition enrichment_down (net : network) : Prop :=
  ∀ n url, match net n url with
           | Raised => True
           | Answered r => status_code r ≠ 200%Z
           end.

(** The entry [rc] of the result shows the catalog row of candidate [d]. *)
Definition shows {score} (movies : list movie_row) (d : nat * score)
    (rc : recommendation) : Prop :=
  title <$> movies !! d.1 = Some (rec_title rc).

(** No poster and no trailer. *)
Definition bare (rc : recommendation) : Prop :=
  rec_poster rc = None ∧ rec_trailer rc = None.

(** The titles of a result, or the exception raised. *)
Definition titles_of (r : exn + list recommendation) : exn + list string :=
  match r with
  | inl e => inl e
  | inr out => inr (rec_title <$> out)
  end.

(** ** Concrete data for the examples *)

(** [<] on rational scores. *)
Definition Qltb (x y : Q) : bool := negb (Qle_bool y x).

Definition net_500 : network := λ _ _, Answered (Response 500 None).

Definition net_ok : network :=
  λ _ _, Answered (Response 200 (Some (Body (Some "/p.jpg")
    [Video (Some "Trailer") (Some "YouTube") (Some "k")]))).

Definition catalog_abc : list movie_row :=
  [Movie 1 "A"; Movie 2 "B"; Movie 3 "C"].

Definition similarity_abc : list (list Q) :=
  [[1; 0.9; 0.9]; [0.9; 1; 0.5]; [0.9; 0.5; 1]]%Q.

(** Two films with the same feature vector: every score is 1. *)
Definition catalog_twins : list movie_row := [Movie 1 "B"; Movie 2 "A"].
Definition similarity_twins : list (list Q) := [[1; 1]; [1; 1]]%Q.

(** A remake: two rows carry the same title. *)
Definition catalog_remake : list movie_row :=
  [Movie 1 "A"; Movie 2 "A"; Movie 3 "B"].
Definition similarity_remake : list (list Q) :=
  [[1; 0.8; 0.1]; [0.8; 1; 0.2]; [0.1; 0.2; 1]]%Q.

Definition catalog_four : list movie_row :=
  [Movie 1 "A"; Movie 2 "B"; Movie 3 "C"; Movie 4 "D"].
Definition similarity_four : list (list Q) :=
  [[1; 0.9; 0.8; 0.7]; [0.9; 1; 0.6; 0.5];
   [0.8; 0.6; 1; 0.4]; [0.7; 0.5; 0.4; 1]]%Q.

(** The test of the loop of [fetch_trailer]. *)
Definition is_youtube_trailer (v : video) : bool :=
  bool_decide (v_type v = Some "Trailer")
  && bool_decide (v_site v = Some "YouTube").

(** The views of a session with immediate repeats struck out. *)
Fixpoint compress (ids : list Z) : list Z :=
  match ids with
  | [] => []
  | x :: ids' =>
      match ids' with
      | [] => [x]
      | y :: _ => if bool_decide (x = y) then compress ids' else x :: compress ids'
      end
  end.

(** The last [k] entries of a list. *)
Definition last_n {A} (k : nat) (l : list A) : list A :=
  drop (length l - k) l.

(** The values that [members] returns, [None] where it raises. *)
Fixpoint subscripts (l : list (member string))
    : option (list (option string)) :=
  match l with
  | [] => Some []
  | m :: l' =>
      match m, subscripts l' with
      | Null, Some vs => Some (None :: vs)
      | Present s, Some vs => Some (Some s :: vs)
      | _, _ => None
      end
  end.

(** The strings that [join] concatenates, [None] where it raises. *)
Fixpoint collect (l : list (option string)) : option (list string) :=
  match l with
  | [] => Some []
  | o :: l' =>
      match o, collect l' with
      | Some s, Some ss => Some (s :: ss)
      | _, _ => None
      end
  end.

(** The names of a list of objects, if every one has a name that is a
    string. *)
Definition strings (l : list (member string)) : option (list string) :=
  vs ← subscripts l; collect vs.

(** The addresses that [get_trending_movies] and [get_movie_details]
    request. *)
Definition trending_url (key : string) : string :=
  "https://api.themoviedb.org/3/trending/movie/week?api_key=" +:+ key.

Definition details_url (key : string) (id : Z) : string :=
  "https://api.themoviedb.org/3/movie/" +:+ pretty id
  +:+ "?api_key=" +:+ key +:+ "&append_to_response=credits,videos".

(** The values of [data.get("credits", {}).get("crew", [])] and of
    [data.get("credits", {}).get("cast", [])], [None] where the code
    raises. *)
Definition crew_of {V} (data : details_body V) : option (list crew_member) :=
  credits ← dict_get (d_credits data) no_credits;
  dict_get (c_crew credits) [].

Definition cast_of {V} (data : details_body V) : option (list cast_member) :=
  credits ← dict_get (d_credits data) no_credits;
  dict_get (c_cast credits) [].

(** The [name] members of the crew members whose job is "Director". *)
Definition director_names (crew : list crew_member) : list (member string) :=
  cr_name <$> filter (λ c, cr_job c = Some "Director") crew.

(** The details that a reply body yields, [None] where the code raises. *)
Definition details_of {V} (data : details_body V) : option (details V) :=
  crew ← crew_of data;
  directors ← strings (director_names crew);
  cast_list ← cast_of data;
  genre_list ← dict_get (d_genres data) [];
  genre_names ← strings genre_list;
  b ← dict_get (d_budget data) 0%Z;
  rv ← dict_get (d_revenue data) 0%Z;
  language_list ← dict_get (d_spoken_languages data) [];
  languages ← strings language_list;
  Some {| rating := d_vote_average data;
          vote_count := d_vote_count data;
          release_date := d_release_date data;
          runtime := d_runtime data;
          tagline := d_tagline data;
          overview := d_overview data;
          director := String.concat ", " directors;
          cast := cast_entry <$> take 5 cast_list;
          genres := String.concat ", " genre_names;
          budget := money (Some b);
          revenue := money (Some rv);
          available_in := String.concat ", " languages |}.

(** The key of the sidebar button of a history entry. *)
Definition hist_key (id : Z) : string := "hist_" +:+ pretty id.

(** No button was clicked to start this run. *)
Definition no_click (pressed : string → bool) : Prop :=
  ∀ key, pressed key = false.

(** The entry [c] of the sidebar shows a catalog row with the id [id]. *)
Definition shows_entry (movies : list movie_row) (id : Z)
    (c : string * string) : Prop :=
  ∃ r, r ∈ movies ∧ movie_id r = id ∧ c.1 = title r ∧ c.2 ≠ "".

(** The id is the [movie_id] of some catalog row. *)
Definition catalog_id (movies : list movie_row) (id : Z) : Prop :=
  id ∈ movie_id <$> movies.

(** The title searched for, or the film drawn, comes from the catalog. *)
Definition mode_from_catalog (movies : list movie_row) (m : mode) : Prop :=
  match m with
  | Search selected_movie => selected_movie ∈ title <$> movies
  | Surprise random_movie =>
      ∃ r, r ∈ movies ∧ rp_title random_movie = title r ∧
           rp_movie_id random_movie = movie_id r
  end.

(** A trending reply with six films, and a reply with the details of one. *)
Definition net_trending_six : network_of trending_body :=
  λ _ _, AnsweredOf (ResponseOf 200 (Some (TrendingBody
    [TrendingResult (Some "a") (Some "/a.jpg") (Some 1%Z);
     TrendingResult (Some "b") None (Some 2%Z);
     TrendingResult None (Some "") None;
     TrendingResult (Some "d") None (Some 4%Z);
     TrendingResult (Some "e") None (Some 5%Z);
     TrendingResult (Some "f") None (Some 6%Z)]))).

Definition details_example : details_body string :=
  DetailsBody string
    (Present (CreditsBody
       (Present [CrewMember (Some "Director") (Present "X");
                 CrewMember (Some "Writer") Absent;
                 CrewMember (Some "Director") (Present "Y")])
       (Present [CastMember (Some "n") (Some "c") (Some "/p")])))
    (Present [Present "Drama"; Present "War"]) (Present 1500000%Z) Absent
    (Present [Present "English"])
    (Some "7.5") None None None None None.

(** The same reply with a budget that is [null]. *)
Definition details_null_budget : details_body string :=
  DetailsBody string (d_credits details_example) (d_genres details_example)
    Null Absent (d_spoken_languages details_example)
    (Some "7.5") None None None None None.

Definition net_details_example : network_of (details_body string) :=
  λ _ _, AnsweredOf (ResponseOf 200 (Some details_example)).

(** A full history, and one that holds a single entry. *)
Definition history_full : list Z := [1; 2; 3; 4; 5]%Z.
Definition history_one : list Z := [7]%Z.

(** * Properties *)

(** ** The stable sort *)

Section sort_facts.
Context {A K : Type} (lt : K → K → bool) (key : A → K).

Lemma insert_perm (x : A) (l : list A) : insert lt key x l ≡ₚ x :: l.
Proof.
  induction l as [|y l IH]; simpl; [done|].
  destruct (lt (key y) (key x)); [|done].
  rewrite IH. apply Permutation_swap.
Qed.

Lemma sort_asc_perm (l : list A) : sort_asc lt key l ≡ₚ l.
Proof.
  induction l as [|x l IH]; simpl; [done|].
  by rewrite insert_perm, IH.
Qed.

Lemma sorted_perm (l : list A) (b : bool) : sorted lt key l b ≡ₚ l.
Proof.
  unfold sorted. destruct b; [|apply sort_asc_perm].
  by rewrite reverse_Permutation, sort_asc_perm, reverse_Permutation.
Qed.

Lemma StronglySorted_reverse (R : relation A) (l : list A) :
  StronglySorted R l → StronglySorted (flip R) (reverse l).
Proof.
  induction 1 as [|x l _ IH Hx]; [constructor|].
  rewrite reverse_cons. apply StronglySorted_app; split_and!;
    [|done|repeat constructor].
  intros a b Ha Hb. apply list_elem_of_singleton in Hb as ->.
  rewrite elem_of_reverse in Ha. rewrite Forall_forall in Hx.
  unfold flip. by apply Hx.
Qed.

Context `{!StrictWeak lt}.

Lemma lt_ge_lt (x y z : K) :
  lt x y = true → lt x z = false → lt z y = true.
Proof.
  intros Hxy Hxz. destruct (lt z y) eqn:Hzy; [done|].
  by rewrite (ge_trans x z y) in Hxy.
Qed.

Lemma lt_asym (x y : K) : lt x y = true → lt y x = false.
Proof.
  intros Hxy. destruct (lt y x) eqn:Hyx; [|done].
  pose proof (lt_trans x y x Hxy Hyx) as Hxx.
  by rewrite lt_irrefl in Hxx.
Qed.

Lemma insert_sorted (R : relation A) (x : A) (l : list A) :
  Forall (R x) l →
  StronglySorted (asc_then lt key R) l →
  StronglySorted (asc_then lt key R) (insert lt key x l).
Proof.
  intros Hx Hl. induction Hl as [|y l Hl IH Hy]; simpl.
  { repeat constructor. }
  apply Forall_cons in Hx as [Hxy Hx].
  destruct (lt (key y) (key x)) eqn:Hyx.
  - constructor; [by apply IH|].
    rewrite insert_perm. constructor; [by left|done].
  - constructor; [by constructor|].
    constructor; [by right|].
    rewrite Forall_forall in Hy, Hx |- *. intros z Hz.
    destruct (Hy z Hz) as [Hyz|[Hzy _]].
    + left. eauto using lt_ge_lt.
    + right. split; [|by apply Hx]. eauto using ge_trans.
Qed.

Lemma sort_asc_sorted (R : relation A) (l : list A) :
  StronglySorted R l → StronglySorted (asc_then lt key R) (sort_asc lt key l).
Proof.
  induction 1 as [|x l _ IH Hx]; simpl; [constructor|].
  apply insert_sorted; [|done]. by rewrite sort_asc_perm.
Qed.

(** [sorted(l, reverse=True, key=key)] is descending by key, and elements
    with equal keys keep the order they had in [l]. *)
Lemma sorted_reverse_stable (R : relation A) (l : list A) :
  StronglySorted R l → StronglySorted (desc_then lt key R) (sorted lt key l true).
Proof.
  intros Hl. unfold sorted.
  apply StronglySorted_reverse, (sort_asc_sorted (flip R)) in Hl.
  apply StronglySorted_reverse in Hl. exact Hl.
Qed.
End sort_facts.

(** ** Sorted lists, positions and slices *)

Section sorted_lists.
Context {A : Type} (R : relation A).

Lemma StronglySorted_lookup (l : list A) (i j : nat) (a b : A) :
  StronglySorted R l → i < j → l !! i = Some a → l !! j = Some b → R a b.
Proof.
  intros Hl. revert i j.
  induction Hl as [|x l _ IH Hx]; intros i j Hij Hi Hj; [done|].
  destruct j as [|j]; [lia|]. destruct i as [|i]; simplify_eq/=.
  - rewrite Forall_forall in Hx. eauto using list_elem_of_lookup_2.
  - apply (IH i j); [lia|done..].
Qed.

Lemma StronglySorted_slice (lo hi : nat) (l : list A) :
  StronglySorted R l → StronglySorted R (slice lo hi l).
Proof.
  intros Hl. unfold slice.
  rewrite <-(take_drop lo l) in Hl. apply StronglySorted_app_1_r in Hl.
  rewrite <-(take_drop (hi - lo) (drop lo l)) in Hl.
  by apply StronglySorted_app_1_l in Hl.
Qed.

Lemma elem_of_slice (lo hi : nat) (l : list A) (x : A) :
  x ∈ slice lo hi l → x ∈ l.
Proof.
  unfold slice. intros Hx.
  apply list_elem_of_lookup in Hx as [i Hi].
  apply lookup_take_Some in Hi as [Hi _]. rewrite lookup_drop in Hi.
  eauto using list_elem_of_lookup_2.
Qed.
End sorted_lists.

(** ** The ranking of a similarity row *)

Section rank_facts.
Context {score : Type} (lt : score → score → bool).
Implicit Types row : list score.

Lemma enumerate_lookup row (j : nat) :
  enumerate row !! j = (λ s, (j, s)) <$> row !! j.
Proof. apply list_lookup_imap. Qed.

Lemma elem_of_enumerate row (j : nat) (s : score) :
  (j, s) ∈ enumerate row ↔ row !! j = Some s.
Proof.
  rewrite list_elem_of_lookup. split.
  - intros [k Hk]. rewrite enumerate_lookup in Hk.
    destruct (row !! k) eqn:E; by simplify_eq/=.
  - intros Hj. exists j. by rewrite enumerate_lookup, Hj.
Qed.

Lemma enumerate_sorted row : StronglySorted row_order (enumerate row).
Proof.
  unfold enumerate.
  cut (∀ f : nat → nat, (∀ i j, i < j → f i < f j) →
         StronglySorted row_order (imap (λ i (x : score), (f i, x)) row)).
  { intros H. apply (H (λ i, i)). auto. }
  induction row as [|x row IH]; intros f Hf; simpl; constructor.
  - apply (IH (f ∘ S)). intros i j Hij. apply Hf. lia.
  - apply Forall_forall. intros [k y] Hk.
    apply elem_of_lookup_imap_1 in Hk as (i & z & Hk & _).
    simplify_eq/=. unfold row_order. simpl. apply Hf. lia.
Qed.

Lemma fst_enumerate row : (enumerate row).*1 = seq 0 (length row).
Proof.
  unfold enumerate. rewrite fmap_imap.
  etrans; [|apply list_fmap_id]. rewrite <-(imap_seq_0 row id).
  by apply imap_ext.
Qed.

Lemma distances_perm row : distances_of lt row ≡ₚ enumerate row.
Proof. apply sorted_perm. Qed.

Lemma length_distances row : length (distances_of lt row) = length row.
Proof.
  rewrite (Permutation_length (distances_perm row)).
  apply length_imap.
Qed.

Lemma elem_of_distances row (j : nat) (s : score) :
  (j, s) ∈ distances_of lt row ↔ row !! j = Some s.
Proof. by rewrite distances_perm, elem_of_enumerate. Qed.

Lemma NoDup_fst_distances row : NoDup (distances_of lt row).*1.
Proof.
  rewrite (distances_perm row), fst_enumerate. apply NoDup_seq.
Qed.

Lemma length_slice_distances row :
  length (slice 1 6 (distances_of lt row)) = 5 `min` (length row - 1).
Proof.
  unfold slice. by rewrite length_take, length_drop, length_distances.
Qed.

Lemma elem_of_ranked row (d : nat * score) :
  d ∈ slice 1 6 (distances_of lt row) → row !! d.1 = Some d.2.
Proof.
  intros Hd%elem_of_slice. destruct d as [j s].
  by apply elem_of_distances in Hd.
Qed.

Context `{!StrictWeak lt}.

Lemma distances_sorted row :
  StronglySorted (desc_then lt snd row_order) (distances_of lt row).
Proof. apply sorted_reverse_stable; [done|apply enumerate_sorted]. Qed.

Lemma desc_then_asym (a b : nat * score) :
  desc_then lt snd row_order a b → desc_then lt snd row_order b a → False.
Proof.
  unfold desc_then, row_order.
  intros [Hab|[Hab Hi]] [Hba|[Hba Hj]]; try congruence; [|lia].
  apply (lt_asym lt) in Hab. congruence.
Qed.

(** X6: every descending sort of the enumerated row that keeps equal scores
    in row order produces [distances_of]: the ranking does not depend on the
    sorting algorithm behind [sorted]. *)
Lemma distances_unique row (l : list (nat * score)) :
  l ≡ₚ enumerate row →
  StronglySorted (desc_then lt snd row_order) l →
  l = distances_of lt row.
Proof.
  intros Hperm Hl.
  apply (StronglySorted_unique_strong (desc_then lt snd row_order));
    [|done|apply distances_sorted|by rewrite distances_perm].
  intros a b _ _ Hab Hba. destruct (desc_then_asym a b Hab Hba).
Qed.

Lemma self_ranks_first_spec row (i : nat) :
  self_ranks_first lt row i = true →
  ∃ s, row !! i = Some s ∧
    ∀ d, d ∈ distances_of lt row → d.1 ≠ i →
         desc_then lt snd row_order (i, s) d.
Proof.
  unfold self_ranks_first. destruct (row !! i) as [s|] eqn:Hs; [|done].
  intros Hall. exists s. split; [done|]. intros d Hd Hne.
  rewrite forallb_forall in Hall.
  rewrite distances_perm in Hd.
  specialize (Hall d (proj1 (list_elem_of_In _ _) Hd)). simpl in Hall.
  unfold desc_then, row_order. simpl.
  destruct (Nat.ltb_spec d.1 i).
  - by left.
  - right. split; [|lia]. by apply negb_true_iff.
Qed.

(** When the own score ranks first, the sorted row starts with the query
    column and that column occurs nowhere else. *)
Lemma distances_head row (i : nat) :
  self_ranks_first lt row i = true →
  ∃ s rest, row !! i = Some s ∧
    distances_of lt row = (i, s) :: rest ∧ i ∉ rest.*1.
Proof.
  intros (s & Hs & Hfirst)%self_ranks_first_spec.
  pose proof (distances_sorted row) as Hsorted.
  pose proof (NoDup_fst_distances row) as Hnd.
  pose proof (proj2 (elem_of_distances row i s) Hs) as Hin.
  destruct (distances_of lt row) as [|d rest] eqn:Hds.
  { by apply not_elem_of_nil in Hin. }
  apply StronglySorted_cons in Hsorted as [Hd _].
  rewrite fmap_cons in Hnd. apply NoDup_cons in Hnd as [Hd1 _].
  assert (d = (i, s)) as ->.
  { apply elem_of_cons in Hin as [<-|Hin]; [done|].
    rewrite Forall_forall in Hd.
    destruct (decide (d.1 = i)) as [Heq|Hne].
    - destruct Hd1. rewrite Heq. by apply (list_elem_of_fmap_2' fst _ (i, s)).
    - destruct (desc_then_asym d (i, s)); [by apply Hd|].
      apply Hfirst; [left|done]. }
  by exists s, rest.
Qed.
End rank_facts.

(** ** Running the effectful code *)

Section run_facts.
Context {score : Type} (lt : score → score → bool).
Variable TMDB_API_KEY : string.
Variable net : network.
Variable movies : list movie_row.
Variable similarity : list (list score).

Lemma first_trailer_state (vs : list video) (n : nat) :
  (first_trailer vs n).2 = n.
Proof.
  induction vs as [|v vs IH]; simpl; [done|].
  destruct (_ && _); [|done]. by destruct (v_key v).
Qed.

(** The bare [except] makes both fetchers total: one request, no exception. *)
Lemma fetch_poster_run (id : Z) (n : nat) :
  ∃ v, fetch_poster TMDB_API_KEY net id n = (inr v, S n) ∧
       (enrichment_down net → v = None).
Proof.
  unfold fetch_poster, catch, fetch_poster_try, bind, get, enrichment_down.
  set (url := _ +:+ _).
  destruct (net n url) as [|r] eqn:Hnet.
  { exists None. done. }
  destruct (Z.eqb_spec (status_code r) 200) as [H200|H200].
  - unfold get_json. destruct (json r) as [data|]; simpl.
    + destruct (truthy (poster_path data)); simpl;
        (eexists; split; [done|]);
        intros Hdown; specialize (Hdown n url); by rewrite Hnet in Hdown.
    + by exists None.
  - by exists None.
Qed.

Lemma fetch_trailer_run (id : Z) (n : nat) :
  ∃ v, fetch_trailer TMDB_API_KEY net id n = (inr v, S n) ∧
       (enrichment_down net → v = None).
Proof.
  unfold fetch_trailer, catch, fetch_trailer_try, bind, get, enrichment_down.
  set (url := _ +:+ _).
  destruct (net n url) as [|r] eqn:Hnet.
  { exists None. done. }
  destruct (Z.eqb_spec (status_code r) 200) as [H200|H200].
  - unfold get_json. destruct (json r) as [data|]; simpl.
    + pose proof (first_trailer_state (results data) (S n)) as Hst.
      destruct (first_trailer (results data) (S n)) as [[e|v] n'];
        simpl in Hst; subst n'.
      * exists None. split; [done|].
        intros Hdown; specialize (Hdown n url); by rewrite Hnet in Hdown.
      * exists v. split; [done|].
        intros Hdown; specialize (Hdown n url); by rewrite Hnet in Hdown.
    + by exists None.
  - by exists None.
Qed.

Lemma recommend_one_run (d : nat * score) (r : movie_row) (n : nat) :
  movies !! d.1 = Some r →
  ∃ rc, recommend_one TMDB_API_KEY net movies d n = (inr rc, S (S n)) ∧
        shows movies d rc ∧ (enrichment_down net → bare rc).
Proof.
  intros Hr. unfold recommend_one, bind, iloc. rewrite Hr. simpl.
  destruct (fetch_poster_run (movie_id r) n) as (p & -> & Hp).
  destruct (fetch_trailer_run (movie_id r) (S n)) as (t & -> & Ht).
  eexists. split; [done|]. split.
  - unfold shows. by rewrite Hr.
  - intros Hdown. split; simpl; auto.
Qed.

Lemma for_each_run (ds : list (nat * score)) (n : nat) :
  Forall (λ d, is_Some (movies !! d.1)) ds →
  ∃ out, for_each (recommend_one TMDB_API_KEY net movies) ds n
           = (inr out, n + 2 * length out) ∧
         Forall2 (shows movies) ds out ∧
         (enrichment_down net → Forall bare out).
Proof.
  intros Hds. revert n.
  induction Hds as [|d ds [r Hr] _ IH]; intros n; simpl.
  { exists []. unfold ret. rewrite Nat.add_0_r. by repeat split. }
  destruct (recommend_one_run d r n Hr) as (rc & Hrun & Hrc & Hbare).
  destruct (IH (S (S n))) as (out & Hout & Hshow & Hbares).
  exists (rc :: out). unfold bind at 1. rewrite Hrun.
  unfold bind at 1. rewrite Hout. unfold ret. simpl.
  split; [f_equal; lia|]. split; [by constructor|].
  intros Hdown. constructor; auto.
Qed.

(** What [recommend] does once the title is found at row [i]: it returns,
    with one entry per candidate of [distances[1:6]], in that order. *)
Lemma recommend_run (movie : string) (i : nat) (r : movie_row)
    (row : list score) (n : nat) :
  list_find (λ r, title r = movie) movies = Some (i, r) →
  similarity !! i = Some row →
  length row ≤ length movies →
  ∃ out, recommend lt TMDB_API_KEY net movies similarity movie n
           = (inr out, n + 2 * length out) ∧
         Forall2 (shows movies) (slice 1 6 (distances_of lt row)) out ∧
         (enrichment_down net → Forall bare out).
Proof.
  intros Hfind Hrow Hlen.
  unfold recommend, bind at 1, first_index. rewrite Hfind. simpl.
  unfold bind at 1, similarity_row. rewrite Hrow. simpl.
  apply for_each_run. apply Forall_forall. intros d Hd%elem_of_ranked.
  apply lookup_lt_is_Some. apply lookup_lt_Some in Hd. lia.
Qed.

Lemma recommend_missing (movie : string) (n : nat) :
  movie ∉ title <$> movies →
  recommend lt TMDB_API_KEY net movies similarity movie n
    = (inl IndexError, n).
Proof.
  intros Hnot. unfold recommend, bind at 1, first_index.
  destruct (list_find _ movies) as [[i r]|] eqn:Hfind; [|done].
  apply list_find_Some in Hfind as (Hi & Ht & _).
  destruct Hnot. apply list_elem_of_fmap. exists r.
  eauto using list_elem_of_lookup_2.
Qed.

Lemma title_found (movie : string) :
  movie ∈ title <$> movies →
  ∃ i r, list_find (λ r, title r = movie) movies = Some (i, r).
Proof.
  intros (r & -> & Hr)%list_elem_of_fmap.
  destruct (list_find_elem_of (λ r', title r' = title r) movies r)
    as [[i r'] Hfind]; eauto.
Qed.

Lemma well_formed_row (i : nat) (r : movie_row) :
  well_formed movies similarity →
  movies !! i = Some r →
  ∃ row, similarity !! i = Some row ∧ length row = length movies.
Proof.
  intros [Hlen Hrows] Hi.
  destruct (lookup_lt_is_Some_2 similarity i) as [row Hrow].
  { rewrite Hlen. eauto using lookup_lt_Some. }
  exists row. split; [done|].
  rewrite Forall_forall in Hrows. eauto using list_elem_of_lookup_2.
Qed.
End run_facts.

(** ** Rational scores *)

Lemma Qltb_lt (x y : Q) : Qltb x y = true ↔ (x < y)%Q.
Proof.
  unfold Qltb. rewrite negb_true_iff, <-not_true_iff_false, Qle_bool_iff.
  split; [apply Qnot_le_lt|apply Qlt_not_le].
Qed.

Lemma Qltb_ge (x y : Q) : Qltb x y = false ↔ (y <= x)%Q.
Proof. unfold Qltb. by rewrite negb_false_iff, Qle_bool_iff. Qed.

#[export] Instance Qltb_strict_weak : StrictWeak Qltb.
Proof.
  split.
  - intros x. apply Qltb_ge, Qle_refl.
  - intros x y z. rewrite !Qltb_lt. apply Qlt_trans.
  - intros x y z. rewrite !Qltb_ge. intros ??. by apply Qle_trans with y.
Qed.

(** ** Titles and catalog rows *)

Section catalog_facts.
Context {score : Type}.
Variable movies : list movie_row.

(** A title carried by exactly one row determines that row. *)
Lemma rows_titled_unique (movie : string) (i j : nat) (ri rj : movie_row) :
  length (rows_titled movie movies) = 1 →
  movies !! i = Some ri → title ri = movie →
  movies !! j = Some rj → title rj = movie →
  i = j.
Proof.
  unfold rows_titled. revert i j.
  induction movies as [|a l IH]; intros i j Hone Hi Hti Hj Htj; [done|].
  rewrite filter_cons in Hone. case_decide as Ha.
  - simpl in Hone. assert (filter (λ r, title r = movie) l = []) as Hnil.
    { apply length_zero_iff_nil. lia. }
    assert (∀ k rk, l !! k = Some rk → title rk = movie → False) as Hno.
    { intros k rk Hk Htk.
      assert (rk ∈ filter (λ r, title r = movie) l) as Hin.
      { apply list_elem_of_filter. eauto using list_elem_of_lookup_2. }
      rewrite Hnil in Hin. by apply not_elem_of_nil in Hin. }
    destruct i as [|i], j as [|j]; simpl in *; [done|..];
      exfalso; eauto.
  - destruct i as [|i]; simpl in *; [congruence|].
    destruct j as [|j]; simpl in *; [congruence|].
    f_equal. eauto.
Qed.

(** The titles of a result are those of the candidates it shows. *)
Lemma shows_titles (ds : list (nat * score)) (out : list recommendation) :
  Forall2 (shows movies) ds out →
  rec_title <$> out = (λ d, default "" (title <$> movies !! d.1)) <$> ds.
Proof.
  induction 1 as [|d rc ds out Hd _ IH]; [done|].
  rewrite !fmap_cons, IH. f_equal. unfold shows in Hd. by rewrite Hd.
Qed.
End catalog_facts.

(** ** The claims about [recommend] *)

(** C1, as stated, fails.  Two films with identical features score 1 against
    each other, the stable sort ranks the earlier row first, and the query is
    what remains after the first entry is dropped; and in a catalog with a
    remake the other row of the same title is recommended. *)
Lemma recommend_returns_query_title :
  (well_formed catalog_twins similarity_twins ∧
   "A" ∈ title <$> catalog_twins ∧
   recommend Qltb "k" net_500 catalog_twins similarity_twins "A" 0
     = (inr [Recommendation "A" None None], 2)) ∧
  (well_formed catalog_remake similarity_remake ∧
   "A" ∈ title <$> catalog_remake ∧
   recommend Qltb "k" net_500 catalog_remake similarity_remake "A" 0
     = (inr [Recommendation "A" None None; Recommendation "B" None None], 4)).
Proof.
  split; (split; [split; [done|repeat constructor]|]);
    (split; [apply list_elem_of_In; simpl; auto|reflexivity]).
Qed.

(** C1 (amended): when the similarity matrix matches the catalog, the query
    title is carried by exactly one row, and in that row of the matrix the
    own score exceeds every score at an earlier column and is not exceeded at
    a later one, [recommend] returns and no entry of its result has the query
    title. *)
Theorem recommend_excludes_query {score} (lt : score → score → bool)
    (key : string) (net : network) (movies : list movie_row)
    (similarity : list (list score)) (movie : string)
    (i : nat) (r : movie_row) (row : list score) (n : nat) :
  StrictWeak lt →
  well_formed movies similarity →
  list_find (λ r, title r = movie) movies = Some (i, r) →
  similarity !! i = Some row →
  self_ranks_first lt row i = true →
  length (rows_titled movie movies) = 1 →
  ∃ out n', recommend lt key net movies similarity movie n = (inr out, n') ∧
            movie ∉ rec_title <$> out.
Proof.
  intros Hlt Hwf Hfind Hrow Hfirst Hone.
  pose proof Hfind as (Hi & Hti & _)%list_find_Some.
  destruct (well_formed_row movies similarity i r Hwf Hi) as (row' & Hrow' & Hlen).
  simplify_eq.
  destruct (recommend_run lt key net movies similarity (title r) i r row n)
    as (out & Hrun & Hshow & _); [done..|lia|].
  exists out, (n + 2 * length out). split; [done|].
  intros (rc & Hrc & Hin)%list_elem_of_fmap.
  apply list_elem_of_lookup in Hin as [k Hk].
  destruct (Forall2_lookup_r _ _ _ _ _ Hshow Hk) as (d & Hd & Hdrc).
  unfold shows in Hdrc. rewrite <-Hrc in Hdrc.
  destruct (movies !! d.1) as [rd|] eqn:Hrd; simplify_eq/=.
  assert (d.1 = i) as Hdi.
  { eapply (rows_titled_unique movies (title r)); eauto. }
  destruct (distances_head lt row i Hfirst) as (s & rest & _ & Hds & Hnotin).
  unfold slice in Hd. rewrite Hds in Hd. simpl in Hd.
  apply lookup_take_Some in Hd as [Hd _].
  destruct Hnotin. rewrite <-Hdi.
  apply list_elem_of_fmap_2. eauto using list_elem_of_lookup_2.
Qed.

Lemma recommend_excludes_query_witness :
  ∃ out n', recommend Qltb "k" net_ok catalog_abc similarity_abc "A" 0
              = (inr out, n') ∧ "A" ∉ rec_title <$> out.
Proof.
  apply (recommend_excludes_query Qltb "k" net_ok catalog_abc similarity_abc
           "A" 0 (Movie 1 "A") [1; 0.9; 0.9]%Q 0).
  - exact Qltb_strict_weak.
  - split; [reflexivity|repeat constructor].
  - reflexivity.
  - reflexivity.
  - reflexivity.
  - reflexivity.
Defined.

(** C2, as stated, fails.  In the catalog of the twins the query "A" sits at
    row 1; its own score 1 is maximal in its row, yet the sorted row starts
    with column 0, and dropping the first entry leaves the query itself. *)
Lemma maximal_self_score_not_first :
  list_find (λ r, title r = "A") catalog_twins = Some (1, Movie 2 "A") ∧
  similarity_twins !! 1 = Some [1; 1]%Q ∧
  self_maximal Qltb [1; 1]%Q 1 = true ∧
  distances_of Qltb [1; 1]%Q = [(0, 1%Q); (1, 1%Q)] ∧
  slice 1 6 (distances_of Qltb [1; 1]%Q) = [(1, 1%Q)].
Proof. by repeat split. Qed.

(** C2 (amended): when, in the query's row of the matrix, the own score
    exceeds every score at an earlier column and is not exceeded at a later
    one, the row sorted by descending score starts with the query's own
    column, that column occurs nowhere else in it, and [recommend] returns
    the entries for the five candidates that follow (fewer if the row is
    shorter), in their order. *)
Theorem self_first_and_dropped {score} (lt : score → score → bool)
    (key : string) (net : network) (movies : list movie_row)
    (similarity : list (list score)) (movie : string)
    (i : nat) (r : movie_row) (row : list score) (n : nat) :
  StrictWeak lt →
  list_find (λ r, title r = movie) movies = Some (i, r) →
  similarity !! i = Some row →
  length row ≤ length movies →
  self_ranks_first lt row i = true →
  ∃ s rest out n',
    row !! i = Some s ∧
    distances_of lt row = (i, s) :: rest ∧
    (i ∉ rest.*1) ∧
    recommend lt key net movies similarity movie n = (inr out, n') ∧
    Forall2 (shows movies) (take 5 rest) out.
Proof.
  intros Hlt Hfind Hrow Hlen Hfirst.
  destruct (distances_head lt row i Hfirst) as (s & rest & Hs & Hds & Hnotin).
  destruct (recommend_run lt key net movies similarity movie i r row n)
    as (out & Hrun & Hshow & _); [done..|].
  exists s, rest, out, (n + 2 * length out). split_and!; [done..|].
  unfold slice in Hshow. by rewrite Hds in Hshow.
Qed.

Lemma self_first_and_dropped_witness :
  ∃ s rest out n',
    [1; 0.9; 0.9]%Q !! 0 = Some s ∧
    distances_of Qltb [1; 0.9; 0.9]%Q = (0, s) :: rest ∧
    (0 ∉ rest.*1) ∧
    recommend Qltb "k" net_ok catalog_abc similarity_abc "A" 0 = (inr out, n') ∧
    Forall2 (shows catalog_abc) (take 5 rest) out.
Proof.
  apply (self_first_and_dropped Qltb "k" net_ok catalog_abc similarity_abc
           "A" 0 (Movie 1 "A") [1; 0.9; 0.9]%Q 0).
  - exact Qltb_strict_weak.
  - reflexivity.
  - reflexivity.
  - simpl. lia.
  - reflexivity.
Defined.

(** C3, as stated, fails: [recommend] has no parameter K, its window is the
    fixed slice [1:6].  With four films the result has three entries, not
    [min 2 3]. *)
Lemma recommend_length_not_min_K :
  well_formed catalog_four similarity_four ∧
  "A" ∈ title <$> catalog_four ∧
  ¬ ∀ K : nat, 0 < K →
      ∃ out n', recommend Qltb "k" net_500 catalog_four similarity_four "A" 0
                  = (inr out, n') ∧
                length out = K `min` (length catalog_four - 1).
Proof.
  split; [split; [done|repeat constructor]|].
  split; [apply list_elem_of_In; simpl; auto|].
  intros H. destruct (H 2) as (out & n' & Hrun & Hlen); [lia|].
  vm_compute in Hrun. injection Hrun as <- _. simpl in Hlen. lia.
Qed.

(** C3 (amended): when the similarity matrix matches the catalog and the
    query title occurs in it, [recommend] returns a result of length exactly
    [min 5 (catalog_size - 1)]. *)
Theorem recommend_length {score} (lt : score → score → bool)
    (key : string) (net : network) (movies : list movie_row)
    (similarity : list (list score)) (movie : string) (n : nat) :
  well_formed movies similarity →
  movie ∈ title <$> movies →
  ∃ out n', recommend lt key net movies similarity movie n = (inr out, n') ∧
            length out = 5 `min` (length movies - 1).
Proof.
  intros Hwf (i & r & Hfind)%title_found.
  pose proof Hfind as (Hi & _)%list_find_Some.
  destruct (well_formed_row movies similarity i r Hwf Hi) as (row & Hrow & Hlen).
  destruct (recommend_run lt key net movies similarity movie i r row n)
    as (out & Hrun & Hshow & _); [done..|lia|].
  exists out, (n + 2 * length out). split; [done|].
  apply Forall2_length in Hshow.
  by rewrite <-Hshow, length_slice_distances, Hlen.
Qed.

Lemma recommend_length_witness :
  ∃ out n', recommend Qltb "k" net_ok catalog_four similarity_four "B" 0
              = (inr out, n') ∧
            length out = 5 `min` (length catalog_four - 1).
Proof.
  apply (recommend_length Qltb "k" net_ok catalog_four similarity_four "B" 0).
  - split; [reflexivity|repeat constructor].
  - apply list_elem_of_In. simpl. auto.
Defined.

(** C4: when the similarity matrix matches the catalog and the query title
    occurs in it, the entries of the result follow the candidates of
    [distances[1:6]] of the query's row one for one; of two candidates the
    earlier never has the smaller score, and if their scores are equal the
    earlier has the smaller row index in the catalog. *)
Theorem recommend_descending_stable {score} (lt : score → score → bool)
    (key : string) (net : network) (movies : list movie_row)
    (similarity : list (list score)) (movie : string) (n : nat) :
  StrictWeak lt →
  well_formed movies similarity →
  movie ∈ title <$> movies →
  ∃ i r row out n',
    list_find (λ r, title r = movie) movies = Some (i, r) ∧
    similarity !! i = Some row ∧
    recommend lt key net movies similarity movie n = (inr out, n') ∧
    let ds := slice 1 6 (distances_of lt row) in
    Forall2 (shows movies) ds out ∧
    (∀ d, d ∈ ds → row !! d.1 = Some d.2) ∧
    ∀ ia ib a b, ia < ib → ds !! ia = Some a → ds !! ib = Some b →
      lt a.2 b.2 = false ∧
      (lt b.2 a.2 = false → a.1 < b.1) ∧
      (a.2 = b.2 → a.1 < b.1).
Proof.
  intros Hlt Hwf (i & r & Hfind)%title_found.
  pose proof Hfind as (Hi & _)%list_find_Some.
  destruct (well_formed_row movies similarity i r Hwf Hi) as (row & Hrow & Hlen).
  destruct (recommend_run lt key net movies similarity movie i r row n)
    as (out & Hrun & Hshow & _); [done..|lia|].
  exists i, r, row, out, (n + 2 * length out).
  do 3 (split; [done|]). cbv zeta. split; [done|].
  split; [intros d; apply elem_of_ranked|].
  intros ia ib a b Hlt' Ha Hb.
  pose proof (StronglySorted_slice _ 1 6 _ (distances_sorted lt row)) as Hsorted.
  pose proof (StronglySorted_lookup _ _ _ _ _ _ Hsorted Hlt' Ha Hb) as Hab.
  unfold desc_then, row_order in Hab.
  assert (lt a.2 b.2 = false) as Hge.
  { destruct Hab as [Hab|[Hab _]]; [by apply lt_asym|done]. }
  assert (lt b.2 a.2 = false → a.1 < b.1) as Hstable.
  { intros Hba. destruct Hab as [Hab|[_ Hab]]; [congruence|done]. }
  split_and!; [done..|].
  intros Heq. apply Hstable. rewrite Heq. apply lt_irrefl.
Qed.

Lemma recommend_descending_stable_witness :
  ∃ i r row out n',
    list_find (λ r, title r = "A") catalog_abc = Some (i, r) ∧
    similarity_abc !! i = Some row ∧
    recommend Qltb "k" net_ok catalog_abc similarity_abc "A" 0 = (inr out, n') ∧
    let ds := slice 1 6 (distances_of Qltb row) in
    Forall2 (shows catalog_abc) ds out ∧
    (∀ d, d ∈ ds → row !! d.1 = Some d.2) ∧
    ∀ ia ib a b, ia < ib → ds !! ia = Some a → ds !! ib = Some b →
      Qltb a.2 b.2 = false ∧
      (Qltb b.2 a.2 = false → a.1 < b.1) ∧
      (a.2 = b.2 → a.1 < b.1).
Proof.
  apply (recommend_descending_stable Qltb "k" net_ok catalog_abc
           similarity_abc "A" 0).
  - exact Qltb_strict_weak.
  - split; [reflexivity|repeat constructor].
  - apply list_elem_of_In. simpl. auto.
Defined.

(** C5: a query title that no catalog row carries makes [recommend] raise
    the exception of [.index[0]] before any request is issued, and the
    exception is the outcome of the call; when the matrix matches the catalog
    and some row carries the title, [recommend] returns a result, computed
    from the matrix row of the first such catalog row. *)
Theorem recommend_raises_iff_missing {score} (lt : score → score → bool)
    (key : string) (net : network) (movies : list movie_row)
    (similarity : list (list score)) (movie : string) (n : nat) :
  (movie ∉ title <$> movies →
     recommend lt key net movies similarity movie n = (inl IndexError, n)) ∧
  (well_formed movies similarity → movie ∈ title <$> movies →
     ∃ i r row out n',
       movies !! i = Some r ∧ title r = movie ∧
       (∀ j r', movies !! j = Some r' → j < i → title r' ≠ movie) ∧
       similarity !! i = Some row ∧
       recommend lt key net movies similarity movie n = (inr out, n') ∧
       Forall2 (shows movies) (slice 1 6 (distances_of lt row)) out).
Proof.
  split; [apply recommend_missing|].
  intros Hwf (i & r & Hfind)%title_found.
  pose proof Hfind as (Hi & Ht & Hfirst)%list_find_Some.
  destruct (well_formed_row movies similarity i r Hwf Hi) as (row & Hrow & Hlen).
  destruct (recommend_run lt key net movies similarity movie i r row n)
    as (out & Hrun & Hshow & _); [done..|lia|].
  exists i, r, row, out, (n + 2 * length out). by split_and!.
Qed.

Lemma recommend_raises_iff_missing_witness :
  recommend Qltb "k" net_ok catalog_remake similarity_remake "Z" 0
    = (inl IndexError, 0) ∧
  ∃ i r row out n',
    catalog_remake !! i = Some r ∧ title r = "A" ∧
    (∀ j r', catalog_remake !! j = Some r' → j < i → title r' ≠ "A") ∧
    similarity_remake !! i = Some row ∧
    recommend Qltb "k" net_ok catalog_remake similarity_remake "A" 0
      = (inr out, n') ∧
    Forall2 (shows catalog_remake) (slice 1 6 (distances_of Qltb row)) out.
Proof.
  split.
  - apply (recommend_raises_iff_missing Qltb "k" net_ok catalog_remake
             similarity_remake "Z" 0).
    intros H%list_elem_of_In. simpl in H.
    destruct H as [H|[H|[H|[]]]]; discriminate H.
  - apply (recommend_raises_iff_missing Qltb "k" net_ok catalog_remake
             similarity_remake "A" 0).
    + split; [reflexivity|repeat constructor].
    + apply list_elem_of_In. simpl. auto.
Defined.

(** C6: when the matrix matches the catalog and the query title occurs in
    it, two runs of [recommend] against arbitrary networks both return, and
    both results show, one for one and in order, the candidates of
    [distances[1:6]] of the query's row: the same titles in the same order,
    whatever the requests answer; and against a network on which every
    request fails the entries have neither poster nor trailer. *)
Theorem recommend_titles_ignore_enrichment {score} (lt : score → score → bool)
    (key : string) (net1 net2 : network) (movies : list movie_row)
    (similarity : list (list score)) (movie : string) (n1 n2 : nat) :
  well_formed movies similarity →
  movie ∈ title <$> movies →
  ∃ i r row out1 out2 n1' n2',
    list_find (λ r, title r = movie) movies = Some (i, r) ∧
    similarity !! i = Some row ∧
    recommend lt key net1 movies similarity movie n1 = (inr out1, n1') ∧
    recommend lt key net2 movies similarity movie n2 = (inr out2, n2') ∧
    Forall2 (shows movies) (slice 1 6 (distances_of lt row)) out1 ∧
    Forall2 (shows movies) (slice 1 6 (distances_of lt row)) out2 ∧
    rec_title <$> out1 = rec_title <$> out2 ∧
    (enrichment_down net1 → Forall bare out1).
Proof.
  intros Hwf (i & r & Hfind)%title_found.
  pose proof Hfind as (Hi & _)%list_find_Some.
  destruct (well_formed_row movies similarity i r Hwf Hi) as (row & Hrow & Hlen).
  destruct (recommend_run lt key net1 movies similarity movie i r row n1)
    as (out1 & Hrun1 & Hshow1 & Hbare1); [done..|lia|].
  destruct (recommend_run lt key net2 movies similarity movie i r row n2)
    as (out2 & Hrun2 & Hshow2 & _); [done..|lia|].
  exists i, r, row, out1, out2, (n1 + 2 * length out1), (n2 + 2 * length out2).
  split_and!; [done..| |done].
  by rewrite (shows_titles movies _ _ Hshow1), (shows_titles movies _ _ Hshow2).
Qed.

Lemma recommend_titles_ignore_enrichment_witness :
  ∃ i r row out1 out2 n1' n2',
    list_find (λ r, title r = "C") catalog_four = Some (i, r) ∧
    similarity_four !! i = Some row ∧
    recommend Qltb "k" net_500 catalog_four similarity_four "C" 0
      = (inr out1, n1') ∧
    recommend Qltb "k" net_ok catalog_four similarity_four "C" 7
      = (inr out2, n2') ∧
    Forall2 (shows catalog_four) (slice 1 6 (distances_of Qltb row)) out1 ∧
    Forall2 (shows catalog_four) (slice 1 6 (distances_of Qltb row)) out2 ∧
    rec_title <$> out1 = rec_title <$> out2 ∧
    (enrichment_down net_500 → Forall bare out1).
Proof.
  apply (recommend_titles_ignore_enrichment Qltb "k" net_500 net_ok
           catalog_four similarity_four "C" 0 7).
  - split; [reflexivity|repeat constructor].
  - apply list_elem_of_In. simpl. auto.
Defined.

(** C7: in the catalog [(1,"A"), (2,"B"), (3,"C")] with the similarity row
    [1.0, 0.9, 0.9] for "A", [recommend("A")] returns the titles "B", "C" in
    that order, whatever the network answers. *)
Theorem recommend_example_tie (key : string) (net : network)
    (similarity : list (list Q)) (n : nat) :
  similarity !! 0 = Some [1; 0.9; 0.9]%Q →
  ∃ out n', recommend Qltb key net catalog_abc similarity "A" n = (inr out, n') ∧
            rec_title <$> out = ["B"; "C"].
Proof.
  intros Hrow.
  destruct (recommend_run Qltb key net catalog_abc similarity "A" 0
              (Movie 1 "A") [1; 0.9; 0.9]%Q n)
    as (out & Hrun & Hshow & _); [done..|simpl; lia|].
  exists out, (n + 2 * length out). split; [done|].
  by rewrite (shows_titles catalog_abc _ _ Hshow).
Qed.

Lemma recommend_example_tie_witness :
  ∃ out n', recommend Qltb "k" net_500 catalog_abc similarity_abc "A" 0
              = (inr out, n') ∧
            rec_title <$> out = ["B"; "C"].
Proof.
  apply (recommend_example_tie "k" net_500 similarity_abc 0). reflexivity.
Defined.

(** ** The session history *)

Lemma update_history_same (h : list Z) (id : Z) :
  last h = Some id → update_history h id = h.
Proof.
  intros Hlast. unfold update_history.
  rewrite (bool_decide_eq_true_2 (last h = Some id)) by done.
  rewrite bool_decide_eq_false_2; [done|]. by intros ->.
Qed.

Lemma update_history_other (h : list Z) (id : Z) :
  last h ≠ Some id →
  update_history h id
    = if bool_decide (length h < 5) then h ++ [id] else drop 1 (h ++ [id]).
Proof.
  intros Hlast. unfold update_history.
  rewrite (bool_decide_eq_false_2 (last h = Some id)) by done.
  rewrite orb_true_r, length_app. simpl.
  repeat case_bool_decide; done || lia.
Qed.

Lemma update_history_last (h : list Z) (id : Z) :
  last (update_history h id) = Some id.
Proof.
  destruct (decide (last h = Some id)) as [Hlast|Hlast].
  { by rewrite update_history_same. }
  rewrite update_history_other by done. case_bool_decide.
  - apply last_snoc.
  - destruct h as [|x h]; simpl in *; [lia|].
    destruct h as [|y h]; simpl in *; [lia|].
    apply (last_snoc id (y :: h)).
Qed.

Lemma update_history_length (h : list Z) (id : Z) :
  length (update_history h id)
    = if bool_decide (last h ≠ Some id ∧ length h < 5)
      then length h + 1 else length h.
Proof.
  destruct (decide (last h = Some id)) as [Hlast|Hlast].
  { rewrite update_history_same by done.
    rewrite bool_decide_eq_false_2; [done|]. by intros [? _]. }
  rewrite update_history_other by done.
  destruct (decide (length h < 5)) as [Hlen|Hlen].
  - rewrite !bool_decide_eq_true_2 by done.
    rewrite length_app. simpl. lia.
  - rewrite !bool_decide_eq_false_2 by (done || by intros [_ ?]).
    rewrite length_drop, length_app. simpl. lia.
Qed.

(** C8, as stated, fails.  Into a full history a new id is recorded by
    evicting the oldest entry, so two recordings of it leave the length at 5;
    and an id that already is the last entry is not recorded at all. *)
Lemma record_twice_without_growth :
  (update_history (update_history history_full 6) 6 = [2; 3; 4; 5; 6]%Z ∧
   length (update_history (update_history history_full 6) 6)
     ≠ length history_full + 1) ∧
  (update_history (update_history history_one 7) 7 = history_one ∧
   length (update_history (update_history history_one 7) 7)
     ≠ length history_one + 1).
Proof. repeat split; simpl; lia. Qed.

(** C8 (amended): recording the id that was recorded last leaves the history
    unchanged, so the second of two consecutive recordings of one id changes
    nothing, and the two together grow the length by 1 when the id differs
    from the last entry and fewer than 5 entries are held, and by 0
    otherwise; recording any other id, or recording into the empty history,
    appends it, and then drops the oldest entry if more than 5 are held. *)
Theorem record_history (h : list Z) (id : Z) :
  (last h = Some id → update_history h id = h) ∧
  update_history (update_history h id) id = update_history h id ∧
  length (update_history (update_history h id) id)
    = (if bool_decide (last h ≠ Some id ∧ length h < 5)
       then length h + 1 else length h) ∧
  (last h ≠ Some id →
     update_history h id
       = if bool_decide (length (h ++ [id]) ≤ 5) then h ++ [id]
         else drop 1 (h ++ [id])) ∧
  update_history [] id = [id].
Proof.
  split_and!.
  - apply update_history_same.
  - apply update_history_same, update_history_last.
  - rewrite (update_history_same (update_history h id))
      by apply update_history_last.
    apply update_history_length.
  - intros Hlast. rewrite update_history_other by done.
    rewrite length_app. simpl. repeat case_bool_decide; done || lia.
  - done.
Qed.

Lemma reachable_length (h : list Z) : reachable h → length h ≤ 5.
Proof.
  induction 1 as [|h id _ IH]; simpl; [lia|].
  rewrite update_history_length. case_bool_decide; lia.
Qed.

Lemma reachable_fold (ids : list Z) (h : list Z) :
  reachable h → reachable (fold_left update_history ids h).
Proof.
  revert h. induction ids as [|id ids IH]; intros h Hh; simpl; [done|].
  apply IH. by constructor.
Qed.

(** C9: every history reachable from the empty one by recordings has at most
    5 entries; recording a new id into a history of 5 drops the oldest entry
    and puts the id last; and six pairwise distinct ids recorded into the
    empty history leave the last five, in order. *)
Theorem history_capped (h : list Z) :
  reachable h →
  length h ≤ 5 ∧
  (∀ id, length (update_history h id) ≤ 5) ∧
  (∀ id, length h = 5 → last h ≠ Some id →
         update_history h id = drop 1 h ++ [id]) ∧
  (∀ a b c d e f : Z, NoDup [a; b; c; d; e; f] →
     fold_left update_history [a; b; c; d; e; f] [] = [b; c; d; e; f]).
Proof.
  intros Hh. split_and!.
  - by apply reachable_length.
  - intros id. apply reachable_length. by constructor.
  - intros id Hlen Hlast. rewrite update_history_other by done.
    rewrite bool_decide_eq_false_2 by lia.
    destruct h; [done|]. simpl. by rewrite !drop_0.
  - intros a b c d e f Hnd.
    assert (a ≠ b ∧ b ≠ c ∧ c ≠ d ∧ d ≠ e ∧ e ≠ f)
      as (Hab & Hbc & Hcd & Hde & Hef).
    { rewrite !NoDup_cons, !elem_of_cons in Hnd.
      split_and!; intros ->; intuition congruence. }
    cbn [fold_left].
    rewrite (update_history_other [] a) by done. simpl.
    rewrite (update_history_other [a] b) by (simpl; congruence). simpl.
    rewrite (update_history_other [a; b] c) by (simpl; congruence). simpl.
    rewrite (update_history_other [a; b; c] d) by (simpl; congruence). simpl.
    rewrite (update_history_other [a; b; c; d] e) by (simpl; congruence). simpl.
    rewrite (update_history_other [a; b; c; d; e] f) by (simpl; congruence).
    done.
Qed.

Lemma history_capped_witness :
  length history_full ≤ 5 ∧
  (∀ id, length (update_history history_full id) ≤ 5) ∧
  (∀ id, length history_full = 5 → last history_full ≠ Some id →
         update_history history_full id = drop 1 history_full ++ [id]) ∧
  (∀ a b c d e f : Z, NoDup [a; b; c; d; e; f] →
     fold_left update_history [a; b; c; d; e; f] [] = [b; c; d; e; f]).
Proof.
  apply (history_capped history_full).
  exact (reachable_fold history_full [] reachable_empty).
Defined.

(** ** The safe image loader *)

(** C10: [safe_image] returns a non-empty URL unchanged; it returns the
    placeholder URL when the URL is null or the empty string, and these are
    exactly the arguments for which the placeholder stands in for the
    argument; so its result is never the empty string. *)
Theorem safe_image_spec (url : option string) :
  (∀ s, url = Some s → s ≠ "" → safe_image url = s) ∧
  (url = None ∨ url = Some "" → safe_image url = placeholder) ∧
  (safe_image url = placeholder ∧ url ≠ Some (safe_image url)
     ↔ url = None ∨ url = Some "") ∧
  safe_image url ≠ "".
Proof.
  destruct url as [s|]; simpl.
  - destruct (String.eqb_spec s "") as [->|Hs]; simpl; split_and!.
    + intros s [= <-] Hs. by destruct Hs.
    + done.
    + split; [auto|]. intros _. split; [done|discriminate].
    + discriminate.
    + by intros s' [= <-] _.
    + intros [H|[= H]]; [discriminate H|done].
    + split; [by intros [_ H]|]. intros [H|[= H]]; [discriminate H|done].
    + done.
  - split_and!; [discriminate|done| |discriminate].
    split; [auto|]. intros _. split; [done|discriminate].
Qed.

(** * Further properties of the code *)

(** ** The ranker beyond the data-model invariant *)

Section ranker_extras.
Context {score : Type} (lt : score → score → bool).
Variable TMDB_API_KEY : string.
Variable net : network.
Variable movies : list movie_row.
Variable similarity : list (list score).

Lemma recommend_one_missing (d : nat * score) (n : nat) :
  movies !! d.1 = None →
  recommend_one TMDB_API_KEY net movies d n = (inl IndexError, n).
Proof. intros Hd. unfold recommend_one, bind, iloc. by rewrite Hd. Qed.

(** The loop either serves every candidate, or stops with [IndexError] at
    the first one that is no row of the catalog. *)
Lemma for_each_outcome (ds : list (nat * score)) (n : nat) :
  match for_each (recommend_one TMDB_API_KEY net movies) ds n with
  | (inr out, n') =>
      Forall (λ d, d.1 < length movies) ds ∧ n' = n + 2 * length out
  | (inl e, _) =>
      e = IndexError ∧ Exists (λ d, length movies ≤ d.1) ds
  end.
Proof.
  revert n. induction ds as [|d ds IH]; intros n; simpl.
  { split; [constructor|lia]. }
  unfold bind at 1.
  destruct (movies !! d.1) as [r|] eqn:Hd.
  - destruct (recommend_one_run TMDB_API_KEY net movies d r n Hd)
      as (rc & -> & _).
    unfold bind at 1. specialize (IH (S (S n))).
    destruct (for_each _ ds (S (S n))) as [[e|out] n'].
    + destruct IH as [-> Hex]. split; [done|]. by apply Exists_cons_tl.
    + destruct IH as [Hall ->]. unfold ret. simpl. split; [|lia].
      constructor; [|done]. eauto using lookup_lt_Some.
  - rewrite recommend_one_missing by done.
    split; [done|]. apply Exists_cons_hd. by apply lookup_ge_None.
Qed.
End ranker_extras.

(** X1: whatever the catalog, the matrix and the network are, the only
    exception that leaves [recommend] is [IndexError]: failures of the
    requests never surface. *)
Theorem recommend_raises_only_IndexError {score} (lt : score → score → bool)
    (key : string) (net : network) (movies : list movie_row)
    (similarity : list (list score)) (movie : string) (n n' : nat) (e : exn) :
  recommend lt key net movies similarity movie n = (inl e, n') →
  e = IndexError.
Proof.
  unfold recommend, bind at 1, first_index.
  destruct (list_find _ movies) as [[i r]|]; simpl;
    [|by intros [= <- _]].
  unfold bind at 1, similarity_row.
  destruct (similarity !! i) as [row|]; simpl; [|by intros [= <- _]].
  intros Hrun.
  pose proof (for_each_outcome key net movies
                (slice 1 6 (distances_of lt row)) n) as Hout.
  rewrite Hrun in Hout. by destruct Hout.
Qed.

Lemma recommend_raises_only_IndexError_witness : IndexError = IndexError.
Proof.
  apply (recommend_raises_only_IndexError Qltb "k" net_ok catalog_abc
           similarity_four "A" 0 4 IndexError).
  reflexivity.
Defined.

(** X2: once the title is found at row [i], [recommend] returns normally
    exactly when the matrix has a row [i] and none of the candidates ranked
    second to sixth in it lies beyond the catalog. *)
Theorem recommend_returns_iff {score} (lt : score → score → bool)
    (key : string) (net : network) (movies : list movie_row)
    (similarity : list (list score)) (movie : string)
    (i : nat) (r : movie_row) (n : nat) :
  list_find (λ r, title r = movie) movies = Some (i, r) →
  (∃ out n', recommend lt key net movies similarity movie n = (inr out, n'))
  ↔ ∃ row, similarity !! i = Some row ∧
           Forall (λ d, d.1 < length movies) (slice 1 6 (distances_of lt row)).
Proof.
  intros Hfind. unfold recommend, bind at 1, first_index. rewrite Hfind.
  simpl. unfold bind at 1, similarity_row.
  destruct (similarity !! i) as [row|]; simpl.
  - pose proof (for_each_outcome key net movies
                  (slice 1 6 (distances_of lt row)) n) as Hout.
    split.
    + intros (out & n' & Hrun). rewrite Hrun in Hout. exists row.
      split; [done|]. by destruct Hout.
    + intros (row' & [= <-] & Hall).
      destruct (for_each _ _ n) as [[e|out] n']; [|eauto].
      destruct Hout as [_ Hex]. apply Exists_exists in Hex as (d & Hd & Hge).
      rewrite Forall_forall in Hall. specialize (Hall d Hd). lia.
  - split; [by intros (? & ? & ?)|by intros (? & ? & _)].
Qed.

Lemma recommend_returns_iff_witness :
  (∃ out n', recommend Qltb "k" net_ok catalog_abc similarity_abc "A" 0
               = (inr out, n'))
  ↔ ∃ row, similarity_abc !! 0 = Some row ∧
           Forall (λ d, d.1 < length catalog_abc)
                  (slice 1 6 (distances_of Qltb row)).
Proof.
  apply (recommend_returns_iff Qltb "k" net_ok catalog_abc similarity_abc
           "A" 0 (Movie 1 "A") 0).
  reflexivity.
Defined.

(** X3: a call of [recommend] that finds the title issues exactly two
    requests for every entry it returns, a poster and a trailer request, and
    returns at most five entries: never more than ten requests. *)
Theorem recommend_requests {score} (lt : score → score → bool)
    (key : string) (net : network) (movies : list movie_row)
    (similarity : list (list score)) (movie : string) (n n' : nat)
    (out : list recommendation) :
  recommend lt key net movies similarity movie n = (inr out, n') →
  n' = n + 2 * length out ∧ length out ≤ 5.
Proof.
  unfold recommend, bind at 1, first_index.
  destruct (list_find _ movies) as [[i r]|] eqn:Hfind; simpl; [|done].
  unfold bind at 1, similarity_row.
  destruct (similarity !! i) as [row|] eqn:Hrow; simpl; [|done].
  intros Hrun.
  pose proof (for_each_outcome key net movies
                (slice 1 6 (distances_of lt row)) n) as Hout.
  rewrite Hrun in Hout. destruct Hout as [Hall ->]. split; [done|].
  destruct (for_each_run key net movies (slice 1 6 (distances_of lt row)) n)
    as (out' & Hrun' & Hshow & _).
  { eapply Forall_impl; [exact Hall|]. intros d Hd. by apply lookup_lt_is_Some. }
  rewrite Hrun in Hrun'. injection Hrun' as <- _.
  apply Forall2_length in Hshow. rewrite <-Hshow.
  unfold slice. rewrite length_take. lia.
Qed.

Lemma recommend_requests_witness :
  4 = 0 + 2 * length [Recommendation "B" None None; Recommendation "C" None None]
  ∧ length [Recommendation "B" None None; Recommendation "C" None None] ≤ 5.
Proof.
  apply (recommend_requests Qltb "k" net_500 catalog_abc similarity_abc "A" 0 4
           [Recommendation "B" None None; Recommendation "C" None None]).
  reflexivity.
Defined.

(** X4: no catalog row is recommended twice, and if no two catalog rows
    share a title then no title occurs twice in the result. *)
Theorem recommend_no_repeats {score} (lt : score → score → bool)
    (key : string) (net : network) (movies : list movie_row)
    (similarity : list (list score)) (movie : string)
    (i : nat) (r : movie_row) (row : list score) (n : nat) :
  list_find (λ r, title r = movie) movies = Some (i, r) →
  similarity !! i = Some row →
  length row ≤ length movies →
  ∃ out n',
    recommend lt key net movies similarity movie n = (inr out, n') ∧
    Forall2 (shows movies) (slice 1 6 (distances_of lt row)) out ∧
    NoDup (slice 1 6 (distances_of lt row)).*1 ∧
    (NoDup (title <$> movies) → NoDup (rec_title <$> out)).
Proof.
  intros Hfind Hrow Hlen.
  destruct (recommend_run lt key net movies similarity movie i r row n)
    as (out & Hrun & Hshow & _); [done..|].
  assert (NoDup (slice 1 6 (distances_of lt row)).*1) as Hnd.
  { unfold slice. rewrite fmap_take, fmap_drop.
    eapply sublist_NoDup; [apply (NoDup_fst_distances lt row)|].
    etrans; [apply sublist_take|apply sublist_drop]. }
  exists out, (n + 2 * length out). split_and!; [done..|].
  intros Htitles. rewrite (shows_titles movies _ _ Hshow).
  apply NoDup_fmap_2_strong; [|by apply NoDup_fmap_1 in Hnd].
  intros d d' Hd Hd' Heq.
  pose proof (elem_of_ranked lt row d Hd) as Hs.
  pose proof (elem_of_ranked lt row d' Hd') as Hs'.
  destruct (lookup_lt_is_Some_2 movies d.1) as [rd Hrd].
  { apply lookup_lt_Some in Hs. lia. }
  destruct (lookup_lt_is_Some_2 movies d'.1) as [rd' Hrd'].
  { apply lookup_lt_Some in Hs'. lia. }
  rewrite Hrd, Hrd' in Heq. simpl in Heq.
  assert (d.1 = d'.1) as Hfst.
  { eapply (NoDup_lookup (title <$> movies)); [done|..].
    - by rewrite list_lookup_fmap, Hrd.
    - by rewrite list_lookup_fmap, Hrd', Heq. }
  destruct d as [j s], d' as [j' s']. simpl in *. subst j'.
  rewrite Hs in Hs'. by injection Hs' as ->.
Qed.

Lemma recommend_no_repeats_witness :
  ∃ out n',
    recommend Qltb "k" net_ok catalog_four similarity_four "D" 0
      = (inr out, n') ∧
    Forall2 (shows catalog_four)
            (slice 1 6 (distances_of Qltb [0.7; 0.5; 0.4; 1]%Q)) out ∧
    NoDup (slice 1 6 (distances_of Qltb [0.7; 0.5; 0.4; 1]%Q)).*1 ∧
    (NoDup (title <$> catalog_four) → NoDup (rec_title <$> out)).
Proof.
  apply (recommend_no_repeats Qltb "k" net_ok catalog_four similarity_four
           "D" 3 (Movie 4 "D") [0.7; 0.5; 0.4; 1]%Q 0).
  - reflexivity.
  - reflexivity.
  - simpl. lia.
Defined.

(** X5: the entries returned are the best of the rest.  Every column of the
    query's row is the first of the ranking, or one of the candidates
    returned, or has a score that exceeds the score of no candidate
    returned. *)
Theorem recommend_top_scores {score} (lt : score → score → bool)
    (row : list score) (j : nat) (s : score) :
  StrictWeak lt →
  row !! j = Some s →
  (j, s) ∈ take 1 (distances_of lt row) ∨
  (j, s) ∈ slice 1 6 (distances_of lt row) ∨
  (∀ d, d ∈ slice 1 6 (distances_of lt row) → lt d.2 s = false).
Proof.
  intros Hlt Hj. apply elem_of_distances with (lt := lt) in Hj.
  pose proof (distances_sorted lt row) as Hsorted.
  set (ds := distances_of lt row) in *.
  rewrite <-(take_drop 1 ds), elem_of_app in Hj.
  destruct Hj as [Hj|Hj]; [by left|right].
  rewrite <-(take_drop 5 (drop 1 ds)), elem_of_app in Hj.
  destruct Hj as [Hj|Hj]; [by left|right].
  intros d Hd. unfold slice in Hd. simpl in Hd.
  apply list_elem_of_lookup in Hd as [k Hk], Hj as [k' Hk'].
  apply lookup_take_Some in Hk as [Hk Hk5].
  rewrite !lookup_drop in Hk'. rewrite lookup_drop in Hk.
  assert (desc_then lt snd row_order d (j, s)) as Hdj.
  { eapply (StronglySorted_lookup _ ds (1 + k) (1 + (5 + k'))); [done|lia|done..]. }
  destruct Hdj as [Hdj|[Hdj _]]; [by apply (lt_asym lt)|done].
Qed.

Lemma recommend_top_scores_witness :
  (3, 0.7%Q) ∈ take 1 (distances_of Qltb [1; 0.9; 0.8; 0.7]%Q) ∨
  (3, 0.7%Q) ∈ slice 1 6 (distances_of Qltb [1; 0.9; 0.8; 0.7]%Q) ∨
  (∀ d, d ∈ slice 1 6 (distances_of Qltb [1; 0.9; 0.8; 0.7]%Q) →
        Qltb d.2 0.7%Q = false).
Proof.
  apply (recommend_top_scores Qltb [1; 0.9; 0.8; 0.7]%Q 3 0.7%Q).
  - exact Qltb_strict_weak.
  - reflexivity.
Defined.

Lemma distances_unique_witness :
  [(1, 1%Q); (0, 0.9%Q); (2, 0.9%Q)] = distances_of Qltb [0.9; 1; 0.9]%Q.
Proof.
  apply (distances_unique Qltb [0.9; 1; 0.9]%Q
           [(1, 1%Q); (0, 0.9%Q); (2, 0.9%Q)]).
  - apply perm_swap.
  - repeat constructor;
      (by left) || (right; split; [reflexivity|unfold row_order; simpl; lia]).
Defined.

(** ** The fetchers *)

Lemma fetch_poster_outcome (key : string) (net : network) (id : Z) (n : nat) :
  ∃ v, fetch_poster key net id n = (inr v, S n) ∧
    ∀ u, v = Some u ↔
      ∃ r data p,
        net n ("https://api.themoviedb.org/3/movie/" +:+ pretty id
               +:+ "?api_key=" +:+ key) = Answered r ∧
        status_code r = 200%Z ∧ json r = Some data ∧
        poster_path data = Some p ∧ p ≠ "" ∧
        u = "https://image.tmdb.org/t/p/w500" +:+ p.
Proof.
  unfold fetch_poster, catch, fetch_poster_try, bind, get.
  set (url := _ +:+ _).
  destruct (net n url) as [|r] eqn:Hnet.
  { exists None. split; [done|]. intros u. split; [done|].
    by intros (? & ? & ? & ? & _). }
  destruct (Z.eqb_spec (status_code r) 200) as [H200|H200];
    [|exists None; split; [done|]; intros u; split; [done|];
      intros (r' & data' & p' & ? & ? & _); congruence].
  unfold get_json. destruct (json r) as [data|] eqn:Hjson; simpl;
    [|exists None; split; [done|]; intros u; split; [done|];
      intros (r' & data' & p' & ? & _ & ? & _); congruence].
  destruct (poster_path data) as [p|] eqn:Hp; simpl;
    [|exists None; split; [done|]; intros u; split; [done|];
      intros (r' & data' & p' & ? & _ & ? & ? & _); congruence].
  destruct (String.eqb_spec p "") as [->|Hne]; simpl.
  - exists None. split; [done|]. intros u. split; [done|].
    intros (r' & data' & p' & ? & _ & ? & ? & ? & _). congruence.
  - eexists. split; [done|]. intros u. split.
    + intros [= <-]. by exists r, data, p.
    + intros (r' & data' & p' & ? & _ & ? & ? & _ & ->). congruence.
Qed.

(** X7: [fetch_poster] issues one request and never raises.  It returns a
    URL exactly when the reply has status 200 and a JSON body whose
    [poster_path] is a non-empty string, and the URL is that path behind the
    image prefix; in every other case it returns [None]. *)
Theorem fetch_poster_spec (key : string) (net : network) (id : Z) (n : nat) :
  ∃ v, fetch_poster key net id n = (inr v, S n) ∧
    ∀ u, v = Some u ↔
      ∃ r data p,
        net n ("https://api.themoviedb.org/3/movie/" +:+ pretty id
               +:+ "?api_key=" +:+ key) = Answered r ∧
        status_code r = 200%Z ∧ json r = Some data ∧
        poster_path data = Some p ∧ p ≠ "" ∧
        u = "https://image.tmdb.org/t/p/w500" +:+ p.
Proof. apply fetch_poster_outcome. Qed.

Lemma first_trailer_skip (skipped rest : list video) (n : nat) :
  Forall (λ v, is_youtube_trailer v = false) skipped →
  first_trailer (skipped ++ rest) n = first_trailer rest n.
Proof.
  induction 1 as [|v skipped Hv _ IH]; [done|].
  simpl. unfold is_youtube_trailer in Hv. by rewrite Hv.
Qed.

(** X8: on a reply with status 200 and a JSON body, [fetch_trailer] is
    decided by the first video that is a YouTube trailer: with a key it
    returns the link built from that key, without a key it returns [None],
    whatever videos follow; and it returns [None] when no video is a YouTube
    trailer. *)
Theorem fetch_trailer_first_match (key : string) (net : network) (id : Z)
    (n : nat) (r : response) (data : body) :
  net n ("https://api.themoviedb.org/3/movie/" +:+ pretty id
         +:+ "/videos?api_key=" +:+ key) = Answered r →
  status_code r = 200%Z →
  json r = Some data →
  (∀ skipped v rest,
     results data = skipped ++ v :: rest →
     Forall (λ v, is_youtube_trailer v = false) skipped →
     is_youtube_trailer v = true →
     fetch_trailer key net id n
       = (inr ((λ k, "https://youtu.be/" +:+ k) <$> v_key v), S n)) ∧
  (Forall (λ v, is_youtube_trailer v = false) (results data) →
   fetch_trailer key net id n = (inr None, S n)).
Proof.
  intros Hnet H200 Hjson.
  unfold fetch_trailer, catch, fetch_trailer_try, bind, get.
  rewrite Hnet, H200. simpl. unfold get_json. rewrite Hjson. simpl.
  split.
  - intros skipped v rest -> Hskip Hv.
    rewrite first_trailer_skip by done. simpl.
    unfold is_youtube_trailer in Hv. rewrite Hv.
    by destruct (v_key v).
  - intros Hnone. rewrite <-(app_nil_r (results data)).
    by rewrite first_trailer_skip.
Qed.

Lemma fetch_trailer_first_match_witness :
  (∀ skipped v rest,
     [Video (Some "Trailer") (Some "YouTube") (Some "k")]
       = skipped ++ v :: rest →
     Forall (λ v, is_youtube_trailer v = false) skipped →
     is_youtube_trailer v = true →
     fetch_trailer "k" net_ok 7 0
       = (inr ((λ k, "https://youtu.be/" +:+ k) <$> v_key v), 1)) ∧
  (Forall (λ v, is_youtube_trailer v = false)
          [Video (Some "Trailer") (Some "YouTube") (Some "k")] →
   fetch_trailer "k" net_ok 7 0 = (inr None, 1)).
Proof.
  apply (fetch_trailer_first_match "k" net_ok 7 0
           (Response 200 (Some (Body (Some "/p.jpg")
              [Video (Some "Trailer") (Some "YouTube") (Some "k")])))
           (Body (Some "/p.jpg")
              [Video (Some "Trailer") (Some "YouTube") (Some "k")])).
  - reflexivity.
  - reflexivity.
  - reflexivity.
Defined.

(** X9: what is drawn for a poster is never an empty image source: the
    URL that [fetch_poster] returned, or the placeholder exactly when
    [fetch_poster] returned [None]. *)
Theorem poster_or_placeholder (key : string) (net : network) (id : Z)
    (n : nat) :
  ∃ v, fetch_poster key net id n = (inr v, S n) ∧
       safe_image v ≠ "" ∧
       (∀ u, v = Some u → safe_image v = u) ∧
       (safe_image v = placeholder ↔ v = None).
Proof.
  destruct (fetch_poster_outcome key net id n) as (v & Hrun & Hv).
  exists v. split; [done|].
  destruct v as [u|]; [|by repeat split].
  destruct (proj1 (Hv u) eq_refl) as (r & data & p & _ & _ & _ & _ & _ & ->).
  simpl. split_and!; [done|by intros ? [= <-]|].
  split; [|done]. intros Heq. unfold placeholder in Heq. simpl in Heq.
  discriminate Heq.
Qed.

(** ** The history as a log of views *)

Lemma compress_snoc (ids : list Z) (x : Z) :
  compress (ids ++ [x])
    = if bool_decide (last ids = Some x) then compress ids
      else compress ids ++ [x].
Proof.
  induction ids as [|a ids IH]; [done|].
  destruct ids as [|b ids].
  - simpl. repeat case_bool_decide; congruence.
  - change (compress ((a :: b :: ids) ++ [x]))
      with (if bool_decide (a = b) then compress ((b :: ids) ++ [x])
            else a :: compress ((b :: ids) ++ [x])).
    change (compress (a :: b :: ids))
      with (if bool_decide (a = b) then compress (b :: ids)
            else a :: compress (b :: ids)).
    rewrite IH, last_cons_cons.
    repeat case_bool_decide; done.
Qed.

Lemma last_compress (ids : list Z) : last (compress ids) = last ids.
Proof.
  induction ids as [|x ids _] using rev_ind; [done|].
  rewrite compress_snoc, last_snoc. case_bool_decide as Hx.
  - induction ids as [|y ids IH] using rev_ind; [done|].
    rewrite last_snoc in Hx. injection Hx as ->.
    rewrite compress_snoc. case_bool_decide; [by apply IH|apply last_snoc].
  - apply last_snoc.
Qed.

Lemma last_last_n {A} (k : nat) (l : list A) :
  0 < k → last (last_n k l) = last l.
Proof.
  intros Hk. unfold last_n.
  destruct l as [|x l _] using rev_ind; [done|].
  rewrite length_app. simpl.
  rewrite drop_app_le by lia. by rewrite !last_snoc.
Qed.

Lemma update_history_last_n (c : list Z) (x : Z) :
  last c ≠ Some x →
  update_history (last_n 5 c) x = last_n 5 (c ++ [x]).
Proof.
  intros Hlast. rewrite update_history_other by (by rewrite last_last_n by lia).
  unfold last_n. rewrite length_drop, length_app. simpl.
  case_bool_decide.
  - replace (length c - 5) with 0 by lia.
    replace (length c + 1 - 5) with 0 by lia. done.
  - rewrite <-drop_app_le by lia. rewrite drop_drop. f_equal. lia.
Qed.

(** X10: what the session holds after any sequence of views is the last
    five entries of that sequence with immediate repeats struck out. *)
Theorem history_is_last_five_views (ids : list Z) :
  fold_left update_history ids [] = last_n 5 (compress ids).
Proof.
  induction ids as [|x ids IH] using rev_ind; [done|].
  rewrite fold_left_app. simpl. rewrite IH, compress_snoc.
  case_bool_decide as Hx.
  - apply update_history_same. rewrite last_last_n by lia.
    by rewrite last_compress.
  - apply update_history_last_n. by rewrite last_compress.
Qed.

(** X11: a history built by recordings never shows the same id at two
    neighbouring positions. *)
Theorem history_no_adjacent_repeat (h : list Z) (k : nat) (a b : Z) :
  reachable h → h !! k = Some a → h !! S k = Some b → a ≠ b.
Proof.
  intros Hh. revert k a b.
  induction Hh as [|h id _ IH]; intros k a b Ha Hb; [done|].
  destruct (decide (last h = Some id)) as [Hlast|Hlast].
  { rewrite update_history_same in Ha, Hb by done. eauto. }
  assert (∀ k a b, (h ++ [id]) !! k = Some a → (h ++ [id]) !! S k = Some b
                   → a ≠ b) as Happ.
  { clear k a b Ha Hb. intros k a b Ha Hb.
    destruct (decide (S k < length h)) as [Hk|Hk].
    - rewrite lookup_app_l in Ha, Hb by lia. eauto.
    - assert (S k = length h) as Hk'.
      { apply lookup_lt_Some in Hb. rewrite length_app in Hb. simpl in Hb. lia. }
      rewrite lookup_app_l in Ha by lia.
      rewrite lookup_app_r, Hk', Nat.sub_diag in Hb by lia.
      injection Hb as <-. rewrite last_lookup, <-Hk' in Hlast. simpl in Hlast.
      congruence. }
  rewrite update_history_other in Ha, Hb by done.
  case_bool_decide; [eauto|].
  rewrite lookup_drop in Ha, Hb. eauto.
Qed.

Lemma history_no_adjacent_repeat_witness : (2 ≠ 3)%Z.
Proof.
  apply (history_no_adjacent_repeat history_full 1 2 3).
  - exact (reachable_fold history_full [] reachable_empty).
  - reflexivity.
  - reflexivity.
Defined.

(** X12: a recording puts the id at the end, keeps the order of the
    entries, and loses at most the oldest one: the new history lies between
    the old one without its first entry and the old one followed by the
    id. *)
Theorem update_history_keeps_order (h : list Z) (id : Z) :
  last (update_history h id) = Some id ∧
  update_history h id `sublist_of` h ++ [id] ∧
  drop 1 h `sublist_of` update_history h id.
Proof.
  split; [apply update_history_last|].
  destruct (decide (last h = Some id)) as [Hlast|Hlast].
  { rewrite update_history_same by done.
    split; [by apply sublist_inserts_r|apply sublist_drop]. }
  rewrite update_history_other by done. case_bool_decide.
  - split; [done|]. apply sublist_inserts_r, sublist_drop.
  - split; [apply sublist_drop|].
    rewrite drop_app_le by lia. by apply sublist_inserts_r.
Qed.

(** ** Amounts of money *)

Lemma filter_no_comma (ds : list ascii) :
  ","%char ∉ ds → filter (λ c, c ≠ ","%char) ds = ds.
Proof.
  induction ds as [|a ds IH]; [done|].
  rewrite not_elem_of_cons. intros [Ha Hds].
  rewrite filter_cons_True by done. by rewrite IH.
Qed.

Lemma group3_short (ds : list ascii) (k : nat) :
  length ds ≤ 3 → ","%char ∉ ds →
  ds !! k = Some ","%char ↔ k mod 4 = 3 ∧ k < length ds.
Proof.
  intros Hlen Hds. split.
  - intros Hk. destruct Hds. eauto using list_elem_of_lookup_2.
  - intros [Hmod Hk]. rewrite Nat.mod_small in Hmod by lia. lia.
Qed.

Lemma group3_spec (ds : list ascii) :
  ","%char ∉ ds →
  filter (λ c, c ≠ ","%char) (group3 ds) = ds ∧
  ∀ k, group3 ds !! k = Some ","%char
       ↔ k mod 4 = 3 ∧ k < length (group3 ds).
Proof.
  remember (length ds) as m eqn:Hm. revert ds Hm.
  induction m as [m IH] using lt_wf_ind. intros ds -> Hds.
  destruct ds as [|a [|b [|c [|d tl]]]];
    try (split; [by apply filter_no_comma|];
         intros k; apply group3_short; [simpl; lia|done]).
  change (group3 (a :: b :: c :: d :: tl))
    with (a :: b :: c :: ","%char :: group3 (d :: tl)).
  pose proof Hds as Hds'.
  rewrite !not_elem_of_cons in Hds'.
  destruct Hds' as (Ha & Hb & Hc & Hd & Htl).
  destruct (IH (length (d :: tl))) with (ds := d :: tl) as [Hstrip Hpos];
    [simpl; lia|done|by rewrite not_elem_of_cons|].
  split.
  - rewrite !filter_cons_True by done.
    rewrite filter_cons_False by (by intros []). by rewrite Hstrip.
  - intros k. destruct k as [|[|[|[|k]]]].
    + simpl. split; [by intros [= ->]|]. by intros [Hmod _].
    + simpl. split; [by intros [= ->]|]. by intros [Hmod _].
    + simpl. split; [by intros [= ->]|]. by intros [Hmod _].
    + simpl. split; [|done]. intros _. split; [done|lia].
    + change ((a :: b :: c :: ","%char :: group3 (d :: tl)) !! S (S (S (S k))))
        with (group3 (d :: tl) !! k).
      rewrite Hpos.
      replace (S (S (S (S k)))) with (k + 1 * 4) by lia.
      rewrite Nat.Div0.mod_add. cbn [length].
      split; intros [? ?]; split; (done || lia).
Qed.

Lemma pretty_N_go_no_comma (x : N) (s : string) :
  ","%char ∉ String.list_ascii_of_string s →
  ","%char ∉ String.list_ascii_of_string (pretty_N_go x s).
Proof.
  revert s. induction (N.lt_wf_0 x) as [x _ IH]. intros s Hs.
  assert (x = 0 ∨ 0 < x)%N as [->|Hx] by lia.
  - by rewrite pretty_N_go_0.
  - rewrite pretty_N_go_step by done. apply IH.
    { by apply N.div_lt. }
    simpl. rewrite not_elem_of_cons. split; [|done].
    unfold pretty_N_char. by repeat case_match.
Qed.

Lemma pretty_no_comma (n : Z) :
  ","%char ∉ String.list_ascii_of_string (pretty n).
Proof.
  assert (","%char ∉ String.list_ascii_of_string "") as Hnil.
  { simpl. apply not_elem_of_nil. }
  destruct n as [|p|p]; unfold pretty, pretty_Z.
  - simpl. rewrite not_elem_of_cons. split; [done|apply not_elem_of_nil].
  - unfold pretty, pretty_positive, pretty, pretty_N.
    case_decide; [done|]. by apply pretty_N_go_no_comma.
  - unfold pretty, pretty_positive, pretty, pretty_N.
    case_decide; [done|]. simpl. rewrite not_elem_of_cons.
    split; [done|]. by apply pretty_N_go_no_comma.
Qed.

(** X13: an amount that is absent, zero or negative is shown as "N/A"; a
    positive amount is shown as a dollar sign followed by its decimal
    digits, in which, counting from the right end, exactly every fourth
    character is a comma. *)
Theorem money_format (v : option Z) :
  ((default 0 v ≤ 0)%Z → money v = "N/A") ∧
  ((0 < default 0 v)%Z →
   ∃ g, money v = "$" +:+ g ∧
        filter (λ c, c ≠ ","%char) (String.list_ascii_of_string g)
          = String.list_ascii_of_string (pretty (default 0%Z v)) ∧
        ∀ k, reverse (String.list_ascii_of_string g) !! k = Some ","%char
             ↔ k mod 4 = 3 ∧ k < length (String.list_ascii_of_string g)).
Proof.
  unfold money. split.
  - intros Hle. by rewrite (proj2 (Z.ltb_ge _ _) Hle).
  - intros Hlt. rewrite (proj2 (Z.ltb_lt _ _) Hlt).
    eexists. split; [done|].
    unfold thousands. rewrite (proj2 (Z.ltb_ge _ _)) by lia.
    rewrite Z.abs_eq by lia.
    rewrite String.list_ascii_of_string_of_list_ascii.
    set (ds := String.list_ascii_of_string (pretty (default 0%Z v))).
    destruct (group3_spec (reverse ds)) as [Hstrip Hpos].
    { rewrite elem_of_reverse. apply pretty_no_comma. }
    split.
    + by rewrite filter_reverse, Hstrip, reverse_involutive.
    + intros k. by rewrite reverse_involutive, length_reverse.
Qed.

(** ** Trending films *)

Section trending_facts.
Variable TMDB_API_KEY : string.
Variable net : network_of trending_body.

Lemma get_trending_movies_run (n : nat) :
  get_trending_movies TMDB_API_KEY net n
    = (inr match net n (trending_url TMDB_API_KEY) with
           | AnsweredOf r =>
               if (status_of r =? 200)%Z
               then match json_of r with
                    | Some data => trending_entry <$> take 5 (tr_results data)
                    | None => []
                    end
               else []
           | RaisedOf => []
           end, S n).
Proof.
  unfold get_trending_movies, bind, catch, get_trending_movies_try, bind,
    get_of, trending_url.
  destruct (net n _) as [|r]; [done|].
  destruct (status_of r =? 200)%Z; [|done].
  unfold json_body. by destruct (json_of r).
Qed.
Lemma get_trending_movies_length (n : nat) :
  length match net n (trending_url TMDB_API_KEY) with
         | AnsweredOf r =>
             if (status_of r =? 200)%Z
             then match json_of r with
                  | Some data => trending_entry <$> take 5 (tr_results data)
                  | None => []
                  end
             else []
         | RaisedOf => []
         end ≤ 5.
Proof.
  destruct (net n _) as [|r]; simpl; [lia|].
  destruct (status_of r =? 200)%Z; simpl; [|lia].
  destruct (json_of r); simpl; [|lia].
  rewrite length_fmap, length_take. lia.
Qed.
End trending_facts.

Lemma safe_image_nonempty (url : option string) : safe_image url ≠ "".
Proof.
  destruct url as [s|]; simpl; [|done].
  by destruct (String.eqb_spec s "").
Qed.

(** X14: [get_trending_movies] issues one request and never raises.  It
    returns at most five films: the first five of the reply, in order, if
    the reply has status 200 and a JSON body, and none otherwise. *)
Theorem get_trending_movies_spec (key : string)
    (net : network_of trending_body) (n : nat) :
  ∃ l, get_trending_movies key net n = (inr l, S n) ∧
       length l ≤ 5 ∧
       (∀ r data, net n (trending_url key) = AnsweredOf r →
                  status_of r = 200%Z → json_of r = Some data →
                  l = trending_entry <$> take 5 (tr_results data)) ∧
       (net n (trending_url key) = RaisedOf → l = []) ∧
       (∀ r, net n (trending_url key) = AnsweredOf r →
             status_of r ≠ 200%Z ∨ json_of r = None → l = []).
Proof.
  eexists. split; [apply get_trending_movies_run|].
  destruct (net n (trending_url key)) as [|r] eqn:Hnet.
  { split_and!; simpl; [lia|done..]. }
  destruct (Z.eqb_spec (status_of r) 200) as [H200|H200].
  - destruct (json_of r) as [data|] eqn:Hjson.
    + split_and!.
      * rewrite length_fmap, length_take. lia.
      * intros r' data' [= <-] _ Hjson'. congruence.
      * done.
      * intros r' [= <-] [?|?]; congruence.
    + split_and!; simpl; [lia| |done..].
      intros r' data' [= <-] _ Hjson'. congruence.
  - split_and!; simpl; [lia| |done..].
    intros r' data' [= <-] ? _. congruence.
Qed.

(** X15: the trending row never runs out of columns.  [trending_section]
    returns normally, draws every film that [get_trending_movies] returned
    in a column of its own, from the left, and never with an empty image
    source. *)
Theorem trending_section_fits (key : string)
    (net : network_of trending_body) (n : nat) :
  ∃ l cells,
    get_trending_movies key net n = (inr l, S n) ∧
    trending_section key net n = (inr cells, S n) ∧
    cells.*1.*1 = seq 0 (length l) ∧
    cells.*2 = tm_title <$> l ∧
    Forall (λ c, c.1.2 ≠ "") cells.
Proof.
  pose proof (get_trending_movies_run key net n) as Hrun.
  pose proof (get_trending_movies_length key net n) as Hlen.
  set (l := match net n (trending_url key) with
            | AnsweredOf _ => _
            | RaisedOf => _
            end) in *.
  unfold trending_section, bind at 1. rewrite Hrun.
  exists l. unfold enumerate.
  cut (∀ off m, off + length l ≤ 5 →
         ∃ cells,
           for_each (λ '(idx, movie),
                       match seq 0 5 !! idx with
                       | Some col =>
                           ret (col, safe_image (tm_poster movie),
                                tm_title movie)
                       | None => raise IndexError
                       end) (imap (λ i x, (off + i, x)) l) m
             = (inr cells, m) ∧
           cells.*1.*1 = seq off (length l) ∧
           cells.*2 = tm_title <$> l ∧
           Forall (λ c, c.1.2 ≠ "") cells).
  { intros H. destruct (H 0 (S n)) as (cells & ? & ? & ? & ?); [lia|].
    exists cells. by split_and!. }
  clear Hrun Hlen. induction l as [|x l IH]; intros off m Hoff.
  { exists []. by split_and!. }
  simpl in Hoff. destruct (IH (S off) m) as (cells & Hcells & Hcols & Ht & Hne);
    [lia|].
  exists ((off, safe_image (tm_poster x), tm_title x) :: cells).
  split_and!.
  - cbn [imap for_each]. unfold bind at 1.
    rewrite Nat.add_0_r, lookup_seq_lt by lia. unfold ret at 1.
    cbv beta iota. unfold bind at 1.
    rewrite (imap_ext _ (λ i x, (S off + i, x)))
      by (intros; simpl; f_equal; lia).
    by rewrite Hcells.
  - by rewrite !fmap_cons, Hcols.
  - by rewrite !fmap_cons, Ht.
  - constructor; [|done]. simpl. apply safe_image_nonempty.
Qed.

(** ** Details of a film *)

Lemma members_run (l : list (member string)) (n : nat) :
  members l n = match subscripts l with
                | Some vs => (inr vs, n)
                | None => (inl KeyError, n)
                end.
Proof.
  unfold members. induction l as [|m l IH]; [done|].
  cbn [for_each subscripts]. unfold bind at 1.
  destruct m as [| |s]; simpl; [done|..];
    unfold bind at 1; rewrite IH; by destruct (subscripts l).
Qed.

Lemma join_run (sep : string) (l : list (option string)) (n : nat) :
  join sep l n = match collect l with
                 | Some ss => (inr (String.concat sep ss), n)
                 | None => (inl TypeError, n)
                 end.
Proof.
  unfold join, bind at 1.
  cut (for_each (λ v, match v with
                      | Some str => ret str
                      | None => raise TypeError
                      end) l n
       = match collect l with
         | Some ss => (inr ss, n)
         | None => (inl TypeError, n)
         end).
  { intros ->. by destruct (collect l). }
  induction l as [|[s|] l IH]; [done| |done].
  cbn [for_each collect]. unfold bind at 1, ret at 1. unfold bind at 1.
  rewrite IH. by destruct (collect l).
Qed.

Lemma strings_Some (l : list (member string)) (ss : list string) :
  strings l = Some ss ↔ l = Present <$> ss.
Proof.
  unfold strings. revert ss. induction l as [|m l IH]; intros ss.
  - simpl. split; [by intros [= <-]|]. by destruct ss.
  - cbn [subscripts]. destruct m as [| |s].
    + split; [done|]. by destruct ss.
    + destruct (subscripts l); simpl; (split; [done|]); by destruct ss.
    + destruct ss as [|s' ss].
      * split; [|done]. destruct (subscripts l) as [vs|]; simpl; [|done].
        by destruct (collect vs).
      * rewrite fmap_cons. specialize (IH ss).
        destruct (subscripts l) as [vs|]; simpl in *.
        -- destruct (collect vs) as [ss'|]; simpl.
           ++ split.
              ** intros [= -> ->]. f_equal. by apply IH.
              ** intros [= -> Hl]. apply IH in Hl. by injection Hl as ->.
           ++ split; [done|]. intros [= _ Hl]. by apply IH in Hl.
        -- split; [done|]. intros [= _ Hl]. by apply IH in Hl.
Qed.

Section details_facts.
Context {V : Type}.
Variable TMDB_API_KEY : string.
Variable net : network_of (details_body V).

(** After the requests, [get_movie_details] is the function [details_of] of
    the reply body, with every exception turned into [None]. *)
Lemma get_movie_details_run (id : Z) (n : nat) :
  get_movie_details TMDB_API_KEY net id n
    = (inr match net n (details_url TMDB_API_KEY id) with
           | AnsweredOf r =>
               if (status_of r =? 200)%Z then json_of r ≫= details_of
               else None
           | RaisedOf => None
           end, S n).
Proof.
  unfold get_movie_details, catch, get_movie_details_try, bind at 1, get_of.
  fold (details_url TMDB_API_KEY id).
  destruct (net n (details_url TMDB_API_KEY id)) as [|r]; [done|].
  destruct (status_of r =? 200)%Z; [|done].
  unfold json_body. destruct (json_of r) as [data|]; [|done].
  unfold bind at 1, ret at 1. cbn [mbind option_bind].
  unfold details_of, crew_of, cast_of.
  unfold bind at 1.
  destruct (dict_get (d_credits data) no_credits) as [credits|]; [|done].
  cbn [an_object ret mbind option_bind]. unfold bind at 1.
  destruct (dict_get (c_crew credits) []) as [crew|]; [|done].
  cbn [a_list ret mbind option_bind]. unfold bind at 1.
  fold (director_names crew). rewrite members_run. unfold strings.
  destruct (subscripts (director_names crew)) as [dvs|]; [|done].
  cbn [mbind option_bind]. unfold bind at 1, ret at 1. unfold bind at 1.
  destruct (dict_get (c_cast credits) []) as [cast_list|];
    [|by destruct (collect dvs)].
  cbn [a_list ret mbind option_bind]. unfold bind at 1.
  destruct (dict_get (d_genres data) []) as [genre_list|];
    [|by destruct (collect dvs)].
  cbn [a_list ret mbind option_bind]. unfold bind at 1.
  rewrite members_run.
  destruct (subscripts genre_list) as [gvs|]; [|by destruct (collect dvs)].
  cbn [mbind option_bind]. unfold bind at 1. rewrite join_run.
  destruct (collect gvs) as [genre_names|]; [|by destruct (collect dvs)].
  unfold bind at 1.
  destruct (dict_get (d_budget data) 0%Z) as [b|];
    [|by destruct (collect dvs)].
  cbn [money_of ret mbind option_bind]. unfold bind at 1.
  destruct (dict_get (d_revenue data) 0%Z) as [rv|];
    [|by destruct (collect dvs)].
  cbn [money_of ret mbind option_bind]. unfold bind at 1.
  destruct (dict_get (d_spoken_languages data) []) as [language_list|];
    [|by destruct (collect dvs)].
  cbn [a_list ret mbind option_bind]. unfold bind at 1.
  rewrite members_run.
  destruct (subscripts language_list) as [lvs|]; [|by destruct (collect dvs)].
  cbn [mbind option_bind]. unfold bind at 1. rewrite join_run.
  destruct (collect lvs) as [languages|]; [|by destruct (collect dvs)].
  unfold bind at 1. rewrite join_run.
  by destruct (collect dvs).
Qed.
End details_facts.

Lemma strings_named (l : list (member string)) :
  is_Some (strings l) ↔ Forall (λ m, ∃ s, m = Present s) l.
Proof.
  split.
  - intros [ss ->%strings_Some]. apply Forall_fmap, Forall_forall.
    intros s _. by exists s.
  - induction 1 as [|m l [s ->] _ [ss Hss]]; [by exists []|].
    exists (s :: ss). apply strings_Some. apply strings_Some in Hss.
    by rewrite Hss.
Qed.

Lemma details_of_Some {V} (data : details_body V) (d : details V) :
  details_of data = Some d ↔
  ∃ crew directors cast_list genre_list genre_names b rv language_list
    languages,
    crew_of data = Some crew ∧
    director_names crew = Present <$> directors ∧
    cast_of data = Some cast_list ∧
    dict_get (d_genres data) [] = Some genre_list ∧
    genre_list = Present <$> genre_names ∧
    dict_get (d_budget data) 0%Z = Some b ∧
    dict_get (d_revenue data) 0%Z = Some rv ∧
    dict_get (d_spoken_languages data) [] = Some language_list ∧
    language_list = Present <$> languages ∧
    d = {| rating := d_vote_average data;
           vote_count := d_vote_count data;
           release_date := d_release_date data;
           runtime := d_runtime data;
           tagline := d_tagline data;
           overview := d_overview data;
           director := String.concat ", " directors;
           cast := cast_entry <$> take 5 cast_list;
           genres := String.concat ", " genre_names;
           budget := money (Some b);
           revenue := money (Some rv);
           available_in := String.concat ", " languages |}.
Proof.
  unfold details_of. split.
  - destruct (crew_of data) as [crew|]; [|done]. cbn [mbind option_bind].
    destruct (strings (director_names crew)) as [directors|] eqn:Hd; [|done].
    cbn [mbind option_bind].
    destruct (cast_of data) as [cast_list|]; [|done]. cbn [mbind option_bind].
    destruct (dict_get (d_genres data) []) as [genre_list|]; [|done].
    cbn [mbind option_bind].
    destruct (strings genre_list) as [genre_names|] eqn:Hg; [|done].
    cbn [mbind option_bind].
    destruct (dict_get (d_budget data) 0%Z) as [b|]; [|done].
    cbn [mbind option_bind].
    destruct (dict_get (d_revenue data) 0%Z) as [rv|]; [|done].
    cbn [mbind option_bind].
    destruct (dict_get (d_spoken_languages data) []) as [language_list|];
      [|done].
    cbn [mbind option_bind].
    destruct (strings language_list) as [languages|] eqn:Hl; [|done].
    cbn [mbind option_bind]. intros [= <-].
    apply strings_Some in Hd, Hg, Hl.
    by exists crew, directors, cast_list, genre_list, genre_names, b, rv,
      language_list, languages.
  - intros (crew & directors & cast_list & genre_list & genre_names & b & rv
            & language_list & languages
            & -> & Hd & -> & -> & Hg & -> & -> & -> & Hl & ->).
    apply strings_Some in Hd, Hg, Hl. cbn [mbind option_bind].
    rewrite Hd. cbn [mbind option_bind]. rewrite Hg. cbn [mbind option_bind].
    by rewrite Hl.
Qed.

(** A budget that is [null] leaves no details although every name is
    there. *)
Lemma get_movie_details_null_budget (n : nat) :
  get_movie_details "k"
    (λ _ _, AnsweredOf (ResponseOf 200 (Some details_null_budget))) 11 n
  = (inr None, S n).
Proof. by rewrite get_movie_details_run. Qed.

(** X16: [get_movie_details] issues one request and never raises, and its
    result is all or nothing.  It returns details exactly when the reply has
    status 200 and a JSON body in which none of the credits, the crew, the
    cast, the genres, the spoken languages, the budget and the revenue is
    [null] and every director, every genre and every spoken language has a
    name that is a string; a single missing name, or a budget that is
    [null], leaves no details at all. *)
Theorem get_movie_details_all_or_nothing {V} (key : string)
    (net : network_of (details_body V)) (id : Z) (n : nat) :
  ∃ v, get_movie_details key net id n = (inr v, S n) ∧
    (is_Some v ↔
       ∃ r data crew cast_list genre_list b rv language_list,
         net n (details_url key id) = AnsweredOf r ∧
         status_of r = 200%Z ∧ json_of r = Some data ∧
         crew_of data = Some crew ∧
         cast_of data = Some cast_list ∧
         dict_get (d_genres data) [] = Some genre_list ∧
         dict_get (d_budget data) 0%Z = Some b ∧
         dict_get (d_revenue data) 0%Z = Some rv ∧
         dict_get (d_spoken_languages data) [] = Some language_list ∧
         Forall (λ m, ∃ s, m = Present s) (director_names crew) ∧
         Forall (λ m, ∃ s, m = Present s) genre_list ∧
         Forall (λ m, ∃ s, m = Present s) language_list).
Proof.
  eexists. split; [apply get_movie_details_run|].
  destruct (net n (details_url key id)) as [|r] eqn:Hnet.
  { split; [by intros [? ?]|]. by intros (? & ? & ? & ? & ? & ? & ? & ? & ? & _). }
  destruct (Z.eqb_spec (status_of r) 200) as [H200|H200].
  2:{ split; [by intros [? ?]|].
      intros (? & ? & ? & ? & ? & ? & ? & ? & ? & ? & _). congruence. }
  destruct (json_of r) as [data|] eqn:Hjson.
  2:{ split; [by intros [? ?]|].
      intros (? & ? & ? & ? & ? & ? & ? & ? & ? & ? & ? & _). congruence. }
  cbn [mbind option_bind]. split.
  - intros [d Hd]. apply details_of_Some in Hd
      as (crew & directors & cast_list & genre_list & genre_names & b & rv
          & language_list & languages
          & Hc & Hd & Hca & Hg & Hgn & Hb & Hrv & Hl & Hln & _).
    exists r, data, crew, cast_list, genre_list, b, rv, language_list.
    split_and!; try done; apply strings_named; eexists; by apply strings_Some.
  - intros (r' & data' & crew & cast_list & genre_list & b & rv
            & language_list & Hr & _ & Hdata & Hc & Hca & Hg & Hb & Hrv & Hl
            & Hdn & Hgn & Hln).
    assert (r' = r) as -> by congruence.
    assert (data' = data) as -> by congruence.
    apply strings_named in Hdn as [directors Hdn], Hgn as [genre_names Hgn],
      Hln as [languages Hln].
    apply strings_Some in Hdn, Hgn, Hln.
    eexists. apply details_of_Some.
    by exists crew, directors, cast_list, genre_list, genre_names, b, rv,
      language_list, languages.
Qed.

(** X17: the details that [get_movie_details] returns list at most five
    cast members, the first five of the reply in order; name the directors
    of the reply in order, separated by ", "; show budget and revenue as
    amounts of money; and pass the rating, the votes, the dates, the runtime,
    the tagline and the overview on unchanged. *)
Theorem get_movie_details_content {V} (key : string)
    (net : network_of (details_body V)) (id : Z) (n n' : nat) (d : details V) :
  get_movie_details key net id n = (inr (Some d), n') →
  ∃ r data crew cast_list directors b rv,
    net n (details_url key id) = AnsweredOf r ∧ json_of r = Some data ∧
    crew_of data = Some crew ∧
    director_names crew = Present <$> directors ∧
    director d = String.concat ", " directors ∧
    cast_of data = Some cast_list ∧
    cast d = cast_entry <$> take 5 cast_list ∧
    length (cast d) ≤ 5 ∧
    dict_get (d_budget data) 0%Z = Some b ∧
    budget d = money (Some b) ∧
    dict_get (d_revenue data) 0%Z = Some rv ∧
    revenue d = money (Some rv) ∧
    (rating d, vote_count d, release_date d, runtime d, tagline d, overview d)
      = (d_vote_average data, d_vote_count data, d_release_date data,
         d_runtime data, d_tagline data, d_overview data).
Proof.
  rewrite get_movie_details_run. intros [= Hd _].
  destruct (net n (details_url key id)) as [|r] eqn:Hnet; [done|].
  destruct (status_of r =? 200)%Z; [|done].
  destruct (json_of r) as [data|] eqn:Hjson; [|done].
  cbn [mbind option_bind] in Hd.
  apply details_of_Some in Hd
    as (crew & directors & cast_list & genre_list & genre_names & b & rv
        & language_list & languages
        & Hc & Hdn & Hca & Hg & Hgn & Hb & Hrv & Hl & Hln & ->).
  exists r, data, crew, cast_list, directors, b, rv.
  cbn [director cast budget revenue rating vote_count release_date runtime
       tagline overview].
  split_and!; try done.
  rewrite length_fmap, length_take. lia.
Qed.

Lemma get_movie_details_content_witness :
  ∃ r data crew cast_list directors b rv,
    net_details_example 0 (details_url "k" 11) = AnsweredOf r ∧
    json_of r = Some data ∧
    crew_of data = Some crew ∧
    director_names crew = Present <$> directors ∧
    "X, Y" = String.concat ", " directors ∧
    cast_of data = Some cast_list ∧
    [CastDetail (Some "n") (Some "c") (Some "https://image.tmdb.org/t/p/w500/p")]
      = cast_entry <$> take 5 cast_list ∧
    length [CastDetail (Some "n") (Some "c")
              (Some "https://image.tmdb.org/t/p/w500/p")] ≤ 5 ∧
    dict_get (d_budget data) 0%Z = Some b ∧
    "$1,500,000" = money (Some b) ∧
    dict_get (d_revenue data) 0%Z = Some rv ∧
    "N/A" = money (Some rv) ∧
    (Some "7.5", None, None, None, None, None)
      = (d_vote_average data, d_vote_count data, d_release_date data,
         d_runtime data, d_tagline data, d_overview data).
Proof.
  apply (get_movie_details_content "k" net_details_example 11 0 1
           (Details (Some "7.5") None None None None None "X, Y"
              [CastDetail (Some "n") (Some "c")
                 (Some "https://image.tmdb.org/t/p/w500/p")]
              "Drama, War" "$1,500,000" "N/A" "English")).
  reflexivity.
Defined.

(** ** The page: the film on display, the history, the sidebar *)

Lemma update_history_Forall (P : Z → Prop) (h : list Z) (id : Z) :
  Forall P h → P id → Forall P (update_history h id).
Proof.
  intros Hh Hid. rewrite Forall_forall. intros x Hx.
  assert (x ∈ h ++ [id]) as Hin.
  { destruct (decide (last h = Some id)) as [Hlast|Hlast].
    - rewrite update_history_same in Hx by done. apply elem_of_app. by left.
    - rewrite update_history_other in Hx by done.
      case_bool_decide; [done|].
      eapply elem_of_sublist; [done|apply sublist_drop]. }
  apply elem_of_app in Hin as [Hin|Hin%list_elem_of_singleton];
    [|by subst]. rewrite Forall_forall in Hh. by apply Hh.
Qed.

Lemma hist_key_inj (a b : Z) : hist_key a = hist_key b → a = b.
Proof. unfold hist_key. intros [= H]. by apply (inj pretty). Qed.

Lemma elem_of_hist_keys (id : Z) (seen : list Z) :
  hist_key id ∈ hist_key <$> seen ↔ id ∈ seen.
Proof.
  rewrite list_elem_of_fmap. split.
  - by intros (x & ->%hist_key_inj & ?).
  - intros ?. by exists id.
Qed.

Lemma NoDup_reverse {A} (l : list A) : NoDup (reverse l) ↔ NoDup l.
Proof. by rewrite reverse_Permutation. Qed.

Section page_facts.
Variable TMDB_API_KEY : string.
Variable net : network.
Variable movies : list movie_row.

Lemma first_row_by_id (id : Z) (n : nat) :
  (catalog_id movies id →
   ∃ i r, list_find (λ r, movie_id r = id) movies = Some (i, r) ∧
          first_row movies (λ r, movie_id r = id) n = (inr r, n) ∧
          r ∈ movies ∧ movie_id r = id) ∧
  (¬ catalog_id movies id →
   first_row movies (λ r, movie_id r = id) n = (inl IndexError, n)).
Proof.
  unfold first_row, catalog_id.
  destruct (list_find _ movies) as [[i r]|] eqn:Hfind.
  - apply list_find_Some in Hfind as (Hi & Hid & _). split.
    + intros _. exists i, r. eauto using list_elem_of_lookup_2.
    + intros Hnot. destruct Hnot. apply list_elem_of_fmap. exists r.
      eauto using list_elem_of_lookup_2.
  - apply list_find_None in Hfind. split; [|done].
    intros (r & -> & Hr)%list_elem_of_fmap.
    rewrite Forall_forall in Hfind. by destruct (Hfind r Hr).
Qed.

(** Without a click the loop of the sidebar serves every entry, or stops
    with [IndexError] at an id that no catalog row carries, or with
    [DuplicateWidgetID] at an id that it has served before. *)
Lemma sidebar_loop_outcome (pressed : string → bool) (seen l : list Z)
    (n : nat) :
  no_click pressed →
  match sidebar_loop TMDB_API_KEY net movies pressed (hist_key <$> seen) l n
  with
  | (inr v, n') =>
      Forall (catalog_id movies) l ∧ NoDup l ∧ Forall (λ x, x ∉ seen) l ∧
      n' = n + length l ∧ sv_rerun v = None ∧
      Forall2 (shows_entry movies) l (sv_cells v)
  | (inl e, _) =>
      (e = IndexError ∧ ¬ Forall (catalog_id movies) l) ∨
      (e = DuplicateWidgetID ∧ ¬ (NoDup l ∧ Forall (λ x, x ∉ seen) l))
  end.
Proof.
  intros Hno. revert seen n. induction l as [|id l IH]; intros seen n.
  { simpl. split_and!; [constructor..|lia|done|constructor]. }
  cbn [sidebar_loop]. unfold bind at 1.
  destruct (first_row_by_id id n) as [Hin Hout].
  destruct (decide (id ∈ movie_id <$> movies)) as [Hid|Hid].
  2:{ rewrite (Hout Hid). left. split; [done|]. by intros [? _]%Forall_cons. }
  destruct (Hin Hid) as (i & r & _ & -> & Hr & Hrid).
  unfold bind at 1.
  destruct (fetch_poster_outcome TMDB_API_KEY net id n) as (v & -> & _).
  unfold bind at 1, button. fold (hist_key id).
  case_bool_decide as Hkey.
  { apply elem_of_hist_keys in Hkey. right. split; [done|].
    by intros [_ [? _]%Forall_cons]. }
  rewrite elem_of_hist_keys in Hkey.
  unfold ret at 1. rewrite Hno. unfold bind at 1.
  specialize (IH (id :: seen) (S n)). rewrite fmap_cons in IH.
  destruct (sidebar_loop _ _ _ _ _ l (S n)) as [[e|rest] n'].
  - destruct IH as [[-> Hnot]|[-> Hnot]].
    + left. split; [done|]. by intros [_ ?]%Forall_cons.
    + right. split; [done|].
      intros [[Hidl Hnd]%NoDup_cons [_ Hl]%Forall_cons]. destruct Hnot.
      split; [done|]. rewrite Forall_forall in Hl |- *.
      intros x Hx. rewrite not_elem_of_cons. split; [|by apply Hl].
      by intros ->.
  - destruct IH as (Hl & Hnd & Hseen & -> & Hrerun & Hcells).
    unfold ret. cbn [sv_rerun sv_cells length].
    rewrite Forall_forall in Hseen.
    split_and!; [by constructor| | |lia|done|].
    + apply NoDup_cons. split; [|done]. intros Hidl.
      apply (Hseen id Hidl). by left.
    + constructor; [done|]. apply Forall_forall. intros x Hx Hxs.
      apply (Hseen x Hx). by right.
    + constructor; [|done]. exists r. simpl.
      split_and!; [done..|apply safe_image_nonempty].
Qed.
End page_facts.

(** X18: when no button was clicked, the sidebar renders exactly when every
    id of the history is the id of some catalog row and no id occurs twice
    in the history.  It then issues one request per entry and shows, most
    recent entry first, the title of a catalog row with that id and an image
    source that is not empty.  An id that occurs twice stops it with
    [DuplicateWidgetID], since both buttons ask for the same key, and an id
    that is in no catalog row with [IndexError]. *)
Theorem sidebar_returns_iff (key : string) (net : network)
    (movies : list movie_row) (pressed : string → bool) (history : list Z)
    (n : nat) :
  no_click pressed →
  (Forall (catalog_id movies) history ∧ NoDup history →
   ∃ cells,
     sidebar key net movies pressed history n
       = (inr {| sv_cells := cells; sv_rerun := None |}, n + length history) ∧
     Forall2 (shows_entry movies) (reverse history) cells) ∧
  (Forall (catalog_id movies) history → ¬ NoDup history →
   ∃ n', sidebar key net movies pressed history n
           = (inl DuplicateWidgetID, n')) ∧
  (¬ Forall (catalog_id movies) history →
   ∃ e n', sidebar key net movies pressed history n = (inl e, n') ∧
           (e = IndexError ∨ e = DuplicateWidgetID)).
Proof.
  intros Hno. unfold sidebar.
  pose proof (sidebar_loop_outcome key net movies pressed [] (reverse history)
                n Hno) as Hout.
  rewrite fmap_nil in Hout.
  destruct (sidebar_loop _ _ _ _ _ (reverse history) n) as [[e|[cells rerun]] n'].
  - rewrite Forall_reverse, NoDup_reverse in Hout. split_and!.
    + intros [Hall Hnd]. destruct Hout as [[_ Hnot]|[_ Hnot]]; [done|].
      destruct Hnot. split; [done|]. apply Forall_forall. intros x _.
      apply not_elem_of_nil.
    + intros Hall Hnd. destruct Hout as [[_ Hnot]|[-> _]]; [done|]. by exists n'.
    + intros _. exists e, n'. split; [done|]. destruct Hout as [[-> _]|[-> _]]; auto.
  - destruct Hout as (Hall & Hnd & _ & -> & Hrerun & Hcells).
    simpl in Hrerun, Hcells. subst rerun.
    rewrite Forall_reverse in Hall. rewrite NoDup_reverse in Hnd.
    rewrite length_reverse. split_and!; [|done..].
    intros _. by exists cells.
Qed.

Lemma sidebar_returns_iff_witness :
  (Forall (catalog_id catalog_abc) [1; 3]%Z ∧ NoDup [1; 3]%Z →
   ∃ cells,
     sidebar "k" net_ok catalog_abc (λ _, false) [1; 3]%Z 0
       = (inr {| sv_cells := cells; sv_rerun := None |}, 0 + length [1; 3]%Z) ∧
     Forall2 (shows_entry catalog_abc) (reverse [1; 3]%Z) cells) ∧
  (Forall (catalog_id catalog_abc) [1; 3]%Z → ¬ NoDup [1; 3]%Z →
   ∃ n', sidebar "k" net_ok catalog_abc (λ _, false) [1; 3]%Z 0
           = (inl DuplicateWidgetID, n')) ∧
  (¬ Forall (catalog_id catalog_abc) [1; 3]%Z →
   ∃ e n', sidebar "k" net_ok catalog_abc (λ _, false) [1; 3]%Z 0
             = (inl e, n') ∧
           (e = IndexError ∨ e = DuplicateWidgetID)).
Proof.
  apply (sidebar_returns_iff "k" net_ok catalog_abc (λ _, false) [1; 3]%Z 0).
  intros key. reflexivity.
Defined.

(** X22: a film that is viewed again after another one breaks the sidebar.
    For two different catalog ids [a] and [b] the history [a, b, a] is one
    that recordings produce, and on it the sidebar stops with
    [DuplicateWidgetID] when no button was clicked. *)
Theorem revisit_breaks_sidebar (key : string) (net : network)
    (movies : list movie_row) (pressed : string → bool) (a b : Z) (n : nat) :
  a ≠ b →
  catalog_id movies a → catalog_id movies b →
  no_click pressed →
  fold_left update_history [a; b; a] [] = [a; b; a] ∧
  reachable [a; b; a] ∧
  ∃ n', sidebar key net movies pressed [a; b; a] n
          = (inl DuplicateWidgetID, n').
Proof.
  intros Hab Ha Hb Hno.
  assert (fold_left update_history [a; b; a] [] = [a; b; a]) as Hfold.
  { cbn [fold_left].
    rewrite (update_history_other [] a) by done. simpl.
    rewrite (update_history_other [a] b) by (simpl; congruence). simpl.
    rewrite (update_history_other [a; b] a) by (simpl; congruence). done. }
  split; [done|]. split.
  { rewrite <-Hfold. apply reachable_fold. constructor. }
  unfold sidebar.
  pose proof (sidebar_loop_outcome key net movies pressed []
                (reverse [a; b; a]) n Hno) as Hout.
  rewrite fmap_nil in Hout.
  destruct (sidebar_loop _ _ _ _ _ (reverse [a; b; a]) n) as [[e|v] n'].
  - destruct Hout as [[_ Hnot]|[-> _]]; [|by exists n'].
    destruct Hnot. rewrite Forall_reverse. by repeat constructor.
  - destruct Hout as (_ & Hnd & _). rewrite NoDup_reverse in Hnd.
    apply NoDup_cons in Hnd as [Hin _]. destruct Hin.
    apply elem_of_cons. right. apply elem_of_cons. by left.
Qed.

Lemma revisit_breaks_sidebar_witness :
  fold_left update_history [1; 2; 1]%Z [] = [1; 2; 1]%Z ∧
  reachable [1; 2; 1]%Z ∧
  ∃ n', sidebar "k" net_ok catalog_abc (λ _, false) [1; 2; 1]%Z 0
          = (inl DuplicateWidgetID, n').
Proof.
  apply (revisit_breaks_sidebar "k" net_ok catalog_abc (λ _, false) 1 2 0).
  - discriminate.
  - apply list_elem_of_In. simpl. auto.
  - apply list_elem_of_In. simpl. auto.
  - intros key. reflexivity.
Defined.

(** X23: a click on the button of the most recent entry ends the sidebar
    after that entry: one request has been issued, the entry is drawn, and
    the title of the first catalog row with its id is stored for the run
    that [st.experimental_rerun()] starts. *)
Theorem sidebar_click_reruns (key : string) (net : network)
    (movies : list movie_row) (pressed : string → bool) (history : list Z)
    (id : Z) (n : nat) :
  last history = Some id →
  catalog_id movies id →
  pressed (hist_key id) = true →
  ∃ i r image,
    list_find (λ r, movie_id r = id) movies = Some (i, r) ∧
    image ≠ "" ∧
    sidebar key net movies pressed history n
      = (inr {| sv_cells := [(title r, image)]; sv_rerun := Some (title r) |},
         S n).
Proof.
  intros [h ->]%last_Some Hid Hpressed. unfold sidebar.
  rewrite reverse_app. cbn [reverse app rev_append sidebar_loop].
  change (reverse [id]) with [id]. cbn [app sidebar_loop].
  destruct (first_row_by_id movies id n) as [Hin _].
  destruct (Hin Hid) as (i & r & Hfind & Hrow & _).
  unfold bind at 1. rewrite Hrow. unfold bind at 1.
  destruct (fetch_poster_outcome key net id n) as (v & -> & _).
  unfold bind at 1, button. fold (hist_key id).
  rewrite bool_decide_eq_false_2 by apply not_elem_of_nil.
  unfold ret at 1. rewrite Hpressed.
  exists i, r, (safe_image v). split_and!; [done|apply safe_image_nonempty|done].
Qed.

Lemma sidebar_click_reruns_witness :
  ∃ i r image,
    list_find (λ r, movie_id r = 3%Z) catalog_abc = Some (i, r) ∧
    image ≠ "" ∧
    sidebar "k" net_ok catalog_abc (λ _, true) [1; 3]%Z 0
      = (inr {| sv_cells := [(title r, image)]; sv_rerun := Some (title r) |},
         1).
Proof.
  apply (sidebar_click_reruns "k" net_ok catalog_abc (λ _, true) [1; 3]%Z 3 0).
  - reflexivity.
  - apply list_elem_of_In. simpl. auto.
  - reflexivity.
Defined.


(** X19: a view of a film from the catalog keeps the history within the
    catalog.  If the title searched for occurs in the catalog, or the film
    drawn is a catalog row, and every id of the history is a catalog id,
    then the head of the details section issues no request, does not raise,
    and leaves a history that ends with the id of the film on display and
    whose ids are all catalog ids. *)
Theorem record_view_keeps_catalog_ids (movies : list movie_row) (m : mode)
    (history : list Z) (n : nat) :
  mode_from_catalog movies m →
  Forall (catalog_id movies) history →
  ∃ movie_title id,
    record_view movies m history n
      = (inr (movie_title, id, update_history history id), n) ∧
    movie_title ∈ title <$> movies ∧
    catalog_id movies id ∧
    last (update_history history id) = Some id ∧
    Forall (catalog_id movies) (update_history history id).
Proof.
  intros Hm Hh. destruct m as [t|p]; simpl in Hm.
  - destruct (title_found movies t Hm) as (i & r & Hfind).
    pose proof Hfind as (Hi & Ht & _)%list_find_Some.
    assert (catalog_id movies (movie_id r)) as Hid.
    { apply list_elem_of_fmap. exists r. eauto using list_elem_of_lookup_2. }
    exists t, (movie_id r). unfold record_view, bind, first_row.
    rewrite Hfind. split_and!; [done..|apply update_history_last|].
    by apply update_history_Forall.
  - destruct Hm as (r & Hr & Ht & Hid).
    assert (catalog_id movies (rp_movie_id p)) as Hcat.
    { apply list_elem_of_fmap. by exists r. }
    exists (rp_title p), (rp_movie_id p). split_and!; [done| |done| |].
    + rewrite Ht. by apply list_elem_of_fmap_2.
    + apply update_history_last.
    + by apply update_history_Forall.
Qed.

Lemma record_view_keeps_catalog_ids_witness :
  ∃ movie_title id,
    record_view catalog_abc (Search "B") [1; 3]%Z 0
      = (inr (movie_title, id, update_history [1; 3]%Z id), 0) ∧
    movie_title ∈ title <$> catalog_abc ∧
    catalog_id catalog_abc id ∧
    last (update_history [1; 3]%Z id) = Some id ∧
    Forall (catalog_id catalog_abc) (update_history [1; 3]%Z id).
Proof.
  apply (record_view_keeps_catalog_ids catalog_abc (Search "B") [1; 3]%Z 0).
  - apply list_elem_of_In. simpl. auto.
  - repeat constructor; apply list_elem_of_In; simpl; auto.
Defined.

(** X20: a search for a title that no catalog row carries stops the page
    with [IndexError] before the history is touched or a request is
    issued. *)
Theorem record_view_missing_title (movies : list movie_row)
    (selected_movie : string) (history : list Z) (n : nat) :
  selected_movie ∉ title <$> movies →
  record_view movies (Search selected_movie) history n = (inl IndexError, n).
Proof.
  intros Hnot. unfold record_view, bind, first_row.
  destruct (list_find _ movies) as [[i r]|] eqn:Hfind; [|done].
  apply list_find_Some in Hfind as (Hi & Ht & _).
  destruct Hnot. apply list_elem_of_fmap. exists r.
  eauto using list_elem_of_lookup_2.
Qed.

Lemma record_view_missing_title_witness :
  record_view catalog_abc (Search "Z") [1]%Z 0 = (inl IndexError, 0).
Proof.
  apply (record_view_missing_title catalog_abc "Z" [1]%Z 0).
  intros H%list_elem_of_In. simpl in H.
  destruct H as [H|[H|[H|[]]]]; discriminate H.
Defined.

(** X21: the film that [get_random_movie] returns carries the title and the
    id of the row drawn, after two requests and without raising; if that row
    is a catalog row, the film can be put on display, and when the matrix
    matches the catalog [recommend] returns for its title. *)
Theorem get_random_movie_recommendable {score} (lt : score → score → bool)
    (key : string) (net : network) (movies : list movie_row)
    (similarity : list (list score)) (random_movie : movie_row) (n : nat) :
  random_movie ∈ movies →
  well_formed movies similarity →
  ∃ p, get_random_movie key net random_movie n = (inr p, S (S n)) ∧
       rp_title p = title random_movie ∧
       rp_movie_id p = movie_id random_movie ∧
       mode_from_catalog movies (Surprise p) ∧
       ∃ out n', recommend lt key net movies similarity (rp_title p) (S (S n))
                   = (inr out, n').
Proof.
  intros Hr Hwf. unfold get_random_movie, bind at 1.
  destruct (fetch_poster_outcome key net (movie_id random_movie) n)
    as (poster & -> & _).
  unfold bind at 1.
  destruct (fetch_trailer_run key net (movie_id random_movie) (S n))
    as (trailer & -> & _).
  eexists. split; [done|]. simpl. split_and!; [done..| |].
  - by exists random_movie.
  - destruct (title_found movies (title random_movie)) as (i & r & Hfind).
    { by apply list_elem_of_fmap_2. }
    pose proof Hfind as (Hi & _)%list_find_Some.
    destruct (well_formed_row movies similarity i r Hwf Hi)
      as (row & Hrow & Hlen).
    destruct (recommend_run lt key net movies similarity
                (title random_movie) i r row (S (S n)))
      as (out & Hrun & _); [done..|lia|].
    eauto.
Qed.

Lemma get_random_movie_recommendable_witness :
  ∃ p, get_random_movie "k" net_ok (Movie 3 "C") 0 = (inr p, 2) ∧
       rp_title p = "C" ∧
       rp_movie_id p = 3%Z ∧
       mode_from_catalog catalog_abc (Surprise p) ∧
       ∃ out n', recommend Qltb "k" net_ok catalog_abc similarity_abc
                   (rp_title p) 2 = (inr out, n').
Proof.
  apply (get_random_movie_recommendable Qltb "k" net_ok catalog_abc
           similarity_abc (Movie 3 "C") 0).
  - apply list_elem_of_In. simpl. auto.
  - split; [reflexivity|repeat constructor].
Defined.
